(** * librbd journal record types: encode / decode / dump

    A shallow embedding of [src/librbd/journal/Types.cc]: the event,
    client-metadata and tag records of the image journal, their wire
    encoding, and the properties of the tagged-union codec. *)

From Stdlib.Strings Require Import String Ascii Byte.
From Stdlib Require Import DecimalString.
From Stdlib Require Import ZArith List Bool Lia.
Import ListNotations.
Open Scope Z_scope.

(* ================================================================== *)
(** ** Bytes and little-endian integers *)

Definition bufferlist := list byte.

Definition Z_of_byte (b : byte) : Z := Z.of_N (Byte.to_N b).

Definition byte_of_Z (z : Z) : byte :=
  match Byte.of_N (Z.to_N (z mod 256)) with
  | Some b => b
  | None => x00
  end.

(** The [n] low-order bytes of [v], least significant first. *)
Fixpoint le_bytes (n : nat) (v : Z) : list byte :=
  match n with
  | O => []
  | S n' => byte_of_Z v :: le_bytes n' (v / 256)
  end.

Fixpoint le_value (bs : list byte) : Z :=
  match bs with
  | [] => 0
  | b :: bs' => Z_of_byte b + 256 * le_value bs'
  end.

(** Reading a [w]-bit pattern as a two's complement number. *)
Definition to_signed (w : Z) (u : Z) : Z :=
  if u <? 2 ^ (w - 1) then u else u - 2 ^ w.

Definition is_u8 (v : Z) : Prop := 0 <= v < 2 ^ 8.
Definition is_u32 (v : Z) : Prop := 0 <= v < 2 ^ 32.
Definition is_u64 (v : Z) : Prop := 0 <= v < 2 ^ 64.
Definition is_i32 (v : Z) : Prop := - 2 ^ 31 <= v < 2 ^ 31.
Definition is_i64 (v : Z) : Prop := - 2 ^ 63 <= v < 2 ^ 63.

(* ================================================================== *)
(** ** Encoding into a buffer

    [void encode(bufferlist& bl) const] appends to the caller's buffer.
    An encoder is a buffer transformer that either completes or stops
    at a failed [assert]; the buffer it had reached is kept in both
    cases, so that what was appended before a failure stays visible. *)

Inductive outcome : Type :=
| Done (bl : bufferlist)
| Aborted (bl : bufferlist).

Definition encoder : Type := bufferlist -> outcome.

Definition seq_enc (e1 e2 : encoder) : encoder :=
  fun bl => match e1 bl with
            | Done bl' => e2 bl'
            | Aborted bl' => Aborted bl'
            end.

Declare Scope enc_scope.
Delimit Scope enc_scope with enc.
Bind Scope enc_scope with encoder.
Notation "e1 ;; e2" := (seq_enc e1 e2)
  (at level 61, right associativity) : enc_scope.

Definition skip_enc : encoder := fun bl => Done bl.

(** [assert(false)] of include/assert.h: the process stops there. *)
Definition assert_false : encoder := fun bl => Aborted bl.

Definition append (bs : list byte) : encoder := fun bl => Done (bl ++ bs).

(** Modelled from the spec: the primitive [::encode] overloads are
    declared in include/encoding.h, which is not among the sources.
    The widths are those of section 3 and section 6 (u8, u32, u64, i32,
    i64); integers are written least significant byte first, a string
    or a byte blob as its u32 length followed by its bytes. *)
Definition encode_u8 (v : Z) : encoder := append (le_bytes 1 v).
Definition encode_u32 (v : Z) : encoder := append (le_bytes 4 v).
Definition encode_u64 (v : Z) : encoder := append (le_bytes 8 v).
Definition encode_i32 (v : Z) : encoder := append (le_bytes 4 v).
Definition encode_i64 (v : Z) : encoder := append (le_bytes 8 v).

Definition encode_bufferlist (s : bufferlist) : encoder :=
  (encode_u32 (Z.of_nat (length s)) ;; append s)%enc.

Definition encode_string (s : string) : encoder :=
  encode_bufferlist (list_byte_of_string s).

(* ================================================================== *)
(** ** Decoding from a buffer

    A [bufferlist::iterator] is a position in a buffer that the decode
    functions advance; running off the end throws. *)

(** The errors of section 7: [end_of_buffer] is TruncatedInput,
    [malformed_input_oldversion] is IncompatibleVersion (with the
    reader's version and the minimum the input asks for),
    [malformed_input_past] is MalformedPayload. *)
Inductive buffer_error : Type :=
| end_of_buffer
| malformed_input_oldversion (v compat : Z)
| malformed_input_past.

Inductive result (A : Type) : Type :=
| Ok (a : A)
| Throw (e : buffer_error).
Arguments Ok {A} a.
Arguments Throw {A} e.

Definition decoder (A : Type) : Type := bufferlist -> nat -> result (A * nat).

Definition ret {A} (a : A) : decoder A := fun _ off => Ok (a, off).

Definition throw {A} (e : buffer_error) : decoder A := fun _ _ => Throw e.

Definition bind {A B} (d : decoder A) (k : A -> decoder B) : decoder B :=
  fun bl off => match d bl off with
                | Ok (a, off') => k a bl off'
                | Throw e => Throw e
                end.

Declare Scope dec_scope.
Delimit Scope dec_scope with dec.
Bind Scope dec_scope with decoder.
Notation "x <- d ;; k" := (bind d (fun x => k))
  (at level 61, d at next level, right associativity) : dec_scope.

Definition get_off : decoder nat := fun _ off => Ok (off, off).

Definition get_remaining : decoder nat :=
  fun bl off => Ok ((length bl - off)%nat, off).

Definition copy (n : nat) : decoder (list byte) :=
  fun bl off =>
    if (off + n <=? length bl)%nat
    then Ok (firstn n (skipn off bl), (off + n)%nat)
    else Throw end_of_buffer.

Definition advance (n : nat) : decoder unit :=
  fun bl off =>
    if (off + n <=? length bl)%nat then Ok (tt, (off + n)%nat)
    else Throw end_of_buffer.

(** Modelled from the spec: the primitive [::decode] overloads of
    include/encoding.h, the inverses of the encoders above. *)
Definition decode_u8 : decoder Z := (bs <- copy 1 ;; ret (le_value bs))%dec.
Definition decode_u32 : decoder Z := (bs <- copy 4 ;; ret (le_value bs))%dec.
Definition decode_u64 : decoder Z := (bs <- copy 8 ;; ret (le_value bs))%dec.
Definition decode_i32 : decoder Z :=
  (bs <- copy 4 ;; ret (to_signed 32 (le_value bs)))%dec.
Definition decode_i64 : decoder Z :=
  (bs <- copy 8 ;; ret (to_signed 64 (le_value bs)))%dec.

Definition decode_bufferlist : decoder bufferlist :=
  (len <- decode_u32 ;; copy (Z.to_nat len))%dec.

Definition decode_string : decoder string :=
  (bs <- decode_bufferlist ;; ret (string_of_list_byte bs))%dec.

(* ================================================================== *)
(** ** The versioned envelope *)

(** Modelled from the spec: the macros ENCODE_START and ENCODE_FINISH
    of include/encoding.h are not among the sources.  Section 4.1:
    encoding writes the struct version (u8), the minimum compatible
    version (u8) and a length placeholder, then the payload; the
    placeholder is patched with the payload size afterwards.
    [ENCODE_START] returns the position of the placeholder. *)
Definition ENCODE_START (v compat : Z) (bl : bufferlist) : bufferlist * nat :=
  let bl1 := bl ++ le_bytes 1 v ++ le_bytes 1 compat in
  (bl1 ++ le_bytes 4 0, length bl1).

Definition copy_in (off : nat) (src : list byte) (bl : bufferlist) : bufferlist :=
  firstn off bl ++ src ++ skipn (off + length src) bl.

Definition ENCODE_FINISH (struct_len_off : nat) (bl : bufferlist) : bufferlist :=
  let struct_len := Z.of_nat (length bl - struct_len_off - 4) in
  copy_in struct_len_off (le_bytes 4 struct_len) bl.

(** Modelled from the spec: the macros DECODE_START and DECODE_FINISH
    of include/encoding.h.  Section 4.1: decoding reads the struct
    version and the minimum compatible version and fails when the
    reader's version [v] is below the latter; it then reads the
    declared length, which must be available, and after the payload
    decoder has run skips what is left of the declared bytes; a
    payload decoder that went past them is an error (section 7).
    [DECODE_START] yields the struct version and the end position. *)
Definition DECODE_START (v : Z) : decoder (Z * nat) :=
  (struct_v <- decode_u8 ;;
   struct_compat <- decode_u8 ;;
   if v <? struct_compat
   then throw (malformed_input_oldversion v struct_compat)
   else
     struct_len <- decode_u32 ;;
     remaining <- get_remaining ;;
     if Z.of_nat remaining <? struct_len
     then throw malformed_input_past
     else off <- get_off ;; ret (struct_v, (off + Z.to_nat struct_len)%nat))%dec.

Definition DECODE_FINISH (struct_end : nat) : decoder unit :=
  (off <- get_off ;;
   if (struct_end <? off)%nat then throw malformed_input_past
   else if (off <? struct_end)%nat then advance (struct_end - off)
   else ret tt)%dec.

(* ================================================================== *)
(** ** Declarations of librbd/journal/Types.h

    The header is not among the sources.  The enumerators that
    Types.cc names are taken as parameters: the development holds for
    every numbering of the two catalogs.  A value of an enumeration is
    represented by its [static_cast<uint32_t>].  The snapshot id of a
    default-constructed [SnapRenameEvent] is a parameter as well. *)

Class Types_h : Type := {
  EVENT_TYPE_AIO_DISCARD : Z;
  EVENT_TYPE_AIO_WRITE : Z;
  EVENT_TYPE_AIO_FLUSH : Z;
  EVENT_TYPE_OP_FINISH : Z;
  EVENT_TYPE_SNAP_CREATE : Z;
  EVENT_TYPE_SNAP_REMOVE : Z;
  EVENT_TYPE_SNAP_RENAME : Z;
  EVENT_TYPE_SNAP_PROTECT : Z;
  EVENT_TYPE_SNAP_UNPROTECT : Z;
  EVENT_TYPE_SNAP_ROLLBACK : Z;
  EVENT_TYPE_RENAME : Z;
  EVENT_TYPE_RESIZE : Z;
  EVENT_TYPE_FLATTEN : Z;
  (** [UnknownEvent::TYPE] *)
  UnknownEvent_TYPE : Z;
  IMAGE_CLIENT_META_TYPE : Z;
  MIRROR_PEER_CLIENT_META_TYPE : Z;
  CLI_CLIENT_META_TYPE : Z;
  (** [UnknownClientMeta::TYPE] *)
  UnknownClientMeta_TYPE : Z;
  (** [SnapRenameEvent().snap_id]: the snapshot id that the default
      constructor of [SnapRenameEvent] leaves in the member *)
  SnapRenameEvent_default_snap_id : Z
}.

(** The case labels of the switch in [EventEntry::decode] and in
    [operator<<(EventType)], in source order. *)
Definition event_catalog `{Types_h} : list Z :=
  [ EVENT_TYPE_AIO_DISCARD; EVENT_TYPE_AIO_WRITE; EVENT_TYPE_AIO_FLUSH;
    EVENT_TYPE_OP_FINISH; EVENT_TYPE_SNAP_CREATE; EVENT_TYPE_SNAP_REMOVE;
    EVENT_TYPE_SNAP_RENAME; EVENT_TYPE_SNAP_PROTECT;
    EVENT_TYPE_SNAP_UNPROTECT; EVENT_TYPE_SNAP_ROLLBACK; EVENT_TYPE_RENAME;
    EVENT_TYPE_RESIZE; EVENT_TYPE_FLATTEN ].

(** The case labels of the switch in [ClientData::decode]. *)
Definition client_meta_catalog `{Types_h} : list Z :=
  [ IMAGE_CLIENT_META_TYPE; MIRROR_PEER_CLIENT_META_TYPE;
    CLI_CLIENT_META_TYPE ].

(** What C++ demands of the header for Types.cc to compile and for the
    casts to [uint32_t] to be what is written: the case labels of one
    switch are pairwise distinct, and every value fits 32 bits. *)
Record Types_h_ok (K : Types_h) : Prop := {
  event_labels_distinct : NoDup event_catalog;
  client_meta_labels_distinct : NoDup client_meta_catalog;
  event_labels_u32 : Forall is_u32 event_catalog;
  client_meta_labels_u32 : Forall is_u32 client_meta_catalog;
  unknown_event_u32 : is_u32 UnknownEvent_TYPE;
  unknown_client_meta_u32 : is_u32 UnknownClientMeta_TYPE
}.

(** The numbering of Types.h, used to run the model on concrete
    bytes: the enumerators count from 0 in the order of the switches,
    and the [TYPE] of either placeholder is [static_cast<...>(-1)],
    which is 4294967295 as a [uint32_t]; a default-constructed
    [SnapRenameEvent] holds [CEPH_NOSNAP], which is [(uint64_t)(-2)]. *)
Definition journal_types : Types_h := {|
  EVENT_TYPE_AIO_DISCARD := 0;
  EVENT_TYPE_AIO_WRITE := 1;
  EVENT_TYPE_AIO_FLUSH := 2;
  EVENT_TYPE_OP_FINISH := 3;
  EVENT_TYPE_SNAP_CREATE := 4;
  EVENT_TYPE_SNAP_REMOVE := 5;
  EVENT_TYPE_SNAP_RENAME := 6;
  EVENT_TYPE_SNAP_PROTECT := 7;
  EVENT_TYPE_SNAP_UNPROTECT := 8;
  EVENT_TYPE_SNAP_ROLLBACK := 9;
  EVENT_TYPE_RENAME := 10;
  EVENT_TYPE_RESIZE := 11;
  EVENT_TYPE_FLATTEN := 12;
  UnknownEvent_TYPE := 4294967295;
  IMAGE_CLIENT_META_TYPE := 0;
  MIRROR_PEER_CLIENT_META_TYPE := 1;
  CLI_CLIENT_META_TYPE := 2;
  UnknownClientMeta_TYPE := 4294967295;
  SnapRenameEvent_default_snap_id := 18446744073709551614
|}.

(** The structured writer of common/Formatter.h, as the list of the
    named values it was given, in order. *)
Inductive dumped : Type :=
| dump_unsigned (name : string) (u : Z)
| dump_int (name : string) (i : Z)
| dump_string (name : string) (s : string).

Definition Formatter := list dumped.

(* ------------------------------------------------------------------ *)
(** *** Event payloads

    Each struct is a record; a member function [T::f] is [T.f].  A
    [decode] takes the object it is called on and yields the object as
    the call leaves it.  Default constructors zero the integers, but
    for the snapshot id of [SnapRenameEvent]. *)

Module AioDiscardEvent.
Record t : Type := make { offset : Z; length : Z }.
Definition default : t := make 0 0.

Definition encode (e : t) : encoder :=
  (encode_u64 (offset e) ;; encode_u64 (length e))%enc.

Definition decode (version : Z) (e : t) : decoder t :=
  (o <- decode_u64 ;;
   l <- decode_u64 ;;
   ret (make o l))%dec.

Definition dump (e : t) (f : Formatter) : Formatter :=
  f ++ [dump_unsigned "offset" (offset e); dump_unsigned "length" (length e)].
End AioDiscardEvent.

Module AioWriteEvent.
Record t : Type := make { offset : Z; length : Z; data : bufferlist }.
Definition default : t := make 0 0 [].

Definition encode (e : t) : encoder :=
  (encode_u64 (offset e) ;; encode_u64 (length e) ;;
   encode_bufferlist (data e))%enc.

Definition decode (version : Z) (e : t) : decoder t :=
  (o <- decode_u64 ;;
   l <- decode_u64 ;;
   d <- decode_bufferlist ;;
   ret (make o l d))%dec.

Definition dump (e : t) (f : Formatter) : Formatter :=
  f ++ [dump_unsigned "offset" (offset e); dump_unsigned "length" (length e)].
End AioWriteEvent.

Module AioFlushEvent.
Record t : Type := make { }.
Definition default : t := make.
Definition encode (e : t) : encoder := skip_enc.
Definition decode (version : Z) (e : t) : decoder t := ret e.
Definition dump (e : t) (f : Formatter) : Formatter := f.
End AioFlushEvent.

Module OpEventBase.
Record t : Type := make { op_tid : Z }.
Definition default : t := make 0.

Definition encode (e : t) : encoder := encode_u64 (op_tid e).

Definition decode (version : Z) (e : t) : decoder t :=
  (v <- decode_u64 ;; ret (make v))%dec.

Definition dump (e : t) (f : Formatter) : Formatter :=
  f ++ [dump_unsigned "op_tid" (op_tid e)].
End OpEventBase.

Module OpFinishEvent.
(** [struct OpFinishEvent : public OpEventBase] with the member [r]. *)
Record t : Type := make { base : OpEventBase.t; r : Z }.
Definition default : t := make OpEventBase.default 0.
Definition op_tid (e : t) : Z := OpEventBase.op_tid (base e).

Definition encode (e : t) : encoder :=
  (OpEventBase.encode (base e) ;;
   encode_u64 (op_tid e) ;;
   encode_i32 (r e))%enc.

Definition decode (version : Z) (e : t) : decoder t :=
  (b <- OpEventBase.decode version (base e) ;;
   let e1 := make b (r e) in
   v <- decode_u64 ;;
   let e2 := make (OpEventBase.make v) (r e1) in
   x <- decode_i32 ;;
   ret (make (base e2) x))%dec.

Definition dump (e : t) (f : Formatter) : Formatter :=
  OpEventBase.dump (base e) f
    ++ [dump_unsigned "op_tid" (op_tid e); dump_int "result" (r e)].
End OpFinishEvent.

Module SnapEventBase.
(** [struct SnapEventBase : public OpEventBase] with [snap_name]. *)
Record t : Type := make { base : OpEventBase.t; snap_name : string }.
Definition default : t := make OpEventBase.default "".

Definition encode (e : t) : encoder :=
  (OpEventBase.encode (base e) ;; encode_string (snap_name e))%enc.

Definition decode (version : Z) (e : t) : decoder t :=
  (b <- OpEventBase.decode version (base e) ;;
   s <- decode_string ;;
   ret (make b s))%dec.

Definition dump (e : t) (f : Formatter) : Formatter :=
  OpEventBase.dump (base e) f ++ [dump_string "snap_name" (snap_name e)].
End SnapEventBase.

Module SnapRenameEvent.
(** [struct SnapRenameEvent : public SnapEventBase] with [snap_id]. *)
Record t : Type := make { base : SnapEventBase.t; snap_id : Z }.
Definition default `{Types_h} : t :=
  make SnapEventBase.default SnapRenameEvent_default_snap_id.

Definition encode (e : t) : encoder :=
  (SnapEventBase.encode (base e) ;; encode_u64 (snap_id e))%enc.

Definition decode (version : Z) (e : t) : decoder t :=
  (b <- SnapEventBase.decode version (base e) ;;
   i <- decode_u64 ;;
   ret (make b i))%dec.

Definition dump (e : t) (f : Formatter) : Formatter :=
  SnapEventBase.dump (base e) f
    ++ [dump_unsigned "src_snap_id" (snap_id e);
        dump_string "dest_snap_name" (SnapEventBase.snap_name (base e))].
End SnapRenameEvent.

Module RenameEvent.
Record t : Type := make { base : OpEventBase.t; image_name : string }.
Definition default : t := make OpEventBase.default "".

Definition encode (e : t) : encoder :=
  (OpEventBase.encode (base e) ;; encode_string (image_name e))%enc.

Definition decode (version : Z) (e : t) : decoder t :=
  (b <- OpEventBase.decode version (base e) ;;
   s <- decode_string ;;
   ret (make b s))%dec.

Definition dump (e : t) (f : Formatter) : Formatter :=
  OpEventBase.dump (base e) f ++ [dump_string "image_name" (image_name e)].
End RenameEvent.

Module ResizeEvent.
Record t : Type := make { base : OpEventBase.t; size : Z }.
Definition default : t := make OpEventBase.default 0.

Definition encode (e : t) : encoder :=
  (OpEventBase.encode (base e) ;; encode_u64 (size e))%enc.

Definition decode (version : Z) (e : t) : decoder t :=
  (b <- OpEventBase.decode version (base e) ;;
   s <- decode_u64 ;;
   ret (make b s))%dec.

Definition dump (e : t) (f : Formatter) : Formatter :=
  OpEventBase.dump (base e) f ++ [dump_unsigned "size" (size e)].
End ResizeEvent.

Module UnknownEvent.
Record t : Type := make { }.
Definition default : t := make.
Definition encode (e : t) : encoder := assert_false.
Definition decode (version : Z) (e : t) : decoder t := ret e.
Definition dump (e : t) (f : Formatter) : Formatter := f.
End UnknownEvent.

(** [typedef boost::variant<...> Event].  The snapshot events other
    than the rename are [SnapEventBase] under five tags, and
    [FlattenEvent] is [OpEventBase] under its own: Types.cc defines no
    member of theirs, they use the base's. *)
Inductive Event : Type :=
| AioDiscard (e : AioDiscardEvent.t)
| AioWrite (e : AioWriteEvent.t)
| AioFlush (e : AioFlushEvent.t)
| OpFinish (e : OpFinishEvent.t)
| SnapCreate (e : SnapEventBase.t)
| SnapRemove (e : SnapEventBase.t)
| SnapRename (e : SnapRenameEvent.t)
| SnapProtect (e : SnapEventBase.t)
| SnapUnprotect (e : SnapEventBase.t)
| SnapRollback (e : SnapEventBase.t)
| Rename (e : RenameEvent.t)
| Resize (e : ResizeEvent.t)
| Flatten (e : OpEventBase.t)
| Unknown (e : UnknownEvent.t).

(** The decimal digits of an unsigned value, as [operator<<] prints a
    [uint32_t]. *)
Definition decimal (v : Z) : string :=
  NilZero.string_of_uint (N.to_uint (Z.to_N v)).

(** [std::ostream &operator<<(std::ostream &, const EventType &)],
    as the string it writes ([stringify]). *)
Definition stringify_EventType `{Types_h} (type : Z) : string :=
  if type =? EVENT_TYPE_AIO_DISCARD then "AioDiscard"
  else if type =? EVENT_TYPE_AIO_WRITE then "AioWrite"
  else if type =? EVENT_TYPE_AIO_FLUSH then "AioFlush"
  else if type =? EVENT_TYPE_OP_FINISH then "OpFinish"
  else if type =? EVENT_TYPE_SNAP_CREATE then "SnapCreate"
  else if type =? EVENT_TYPE_SNAP_REMOVE then "SnapRemove"
  else if type =? EVENT_TYPE_SNAP_RENAME then "SnapRename"
  else if type =? EVENT_TYPE_SNAP_PROTECT then "SnapProtect"
  else if type =? EVENT_TYPE_SNAP_UNPROTECT then "SnapUnprotect"
  else if type =? EVENT_TYPE_SNAP_ROLLBACK then "SnapRollback"
  else if type =? EVENT_TYPE_RENAME then "Rename"
  else if type =? EVENT_TYPE_RESIZE then "Resize"
  else if type =? EVENT_TYPE_FLATTEN then "Flatten"
  else ("Unknown (" ++ decimal type ++ ")")%string.

Module EventVisitors.
(** The four visitors of the anonymous namespace at the event
    variant: [T::TYPE] is the enumerator named after [T]. *)
Definition GetTypeVisitor `{Types_h} (ev : Event) : Z :=
  match ev with
  | AioDiscard _ => EVENT_TYPE_AIO_DISCARD
  | AioWrite _ => EVENT_TYPE_AIO_WRITE
  | AioFlush _ => EVENT_TYPE_AIO_FLUSH
  | OpFinish _ => EVENT_TYPE_OP_FINISH
  | SnapCreate _ => EVENT_TYPE_SNAP_CREATE
  | SnapRemove _ => EVENT_TYPE_SNAP_REMOVE
  | SnapRename _ => EVENT_TYPE_SNAP_RENAME
  | SnapProtect _ => EVENT_TYPE_SNAP_PROTECT
  | SnapUnprotect _ => EVENT_TYPE_SNAP_UNPROTECT
  | SnapRollback _ => EVENT_TYPE_SNAP_ROLLBACK
  | Rename _ => EVENT_TYPE_RENAME
  | Resize _ => EVENT_TYPE_RESIZE
  | Flatten _ => EVENT_TYPE_FLATTEN
  | Unknown _ => UnknownEvent_TYPE
  end.

(** [t.encode(m_bl)], the second statement of [EncodeVisitor]. *)
Definition encode_payload (ev : Event) : encoder :=
  match ev with
  | AioDiscard e => AioDiscardEvent.encode e
  | AioWrite e => AioWriteEvent.encode e
  | AioFlush e => AioFlushEvent.encode e
  | OpFinish e => OpFinishEvent.encode e
  | SnapCreate e | SnapRemove e | SnapProtect e | SnapUnprotect e
  | SnapRollback e => SnapEventBase.encode e
  | SnapRename e => SnapRenameEvent.encode e
  | Rename e => RenameEvent.encode e
  | Resize e => ResizeEvent.encode e
  | Flatten e => OpEventBase.encode e
  | Unknown e => UnknownEvent.encode e
  end.

Definition EncodeVisitor `{Types_h} (ev : Event) : encoder :=
  (encode_u32 (GetTypeVisitor ev) ;; encode_payload ev)%enc.

Definition DecodeVisitor (m_version : Z) (ev : Event) : decoder Event :=
  match ev with
  | AioDiscard e => (x <- AioDiscardEvent.decode m_version e ;; ret (AioDiscard x))
  | AioWrite e => (x <- AioWriteEvent.decode m_version e ;; ret (AioWrite x))
  | AioFlush e => (x <- AioFlushEvent.decode m_version e ;; ret (AioFlush x))
  | OpFinish e => (x <- OpFinishEvent.decode m_version e ;; ret (OpFinish x))
  | SnapCreate e => (x <- SnapEventBase.decode m_version e ;; ret (SnapCreate x))
  | SnapRemove e => (x <- SnapEventBase.decode m_version e ;; ret (SnapRemove x))
  | SnapRename e => (x <- SnapRenameEvent.decode m_version e ;; ret (SnapRename x))
  | SnapProtect e => (x <- SnapEventBase.decode m_version e ;; ret (SnapProtect x))
  | SnapUnprotect e =>
      (x <- SnapEventBase.decode m_version e ;; ret (SnapUnprotect x))
  | SnapRollback e =>
      (x <- SnapEventBase.decode m_version e ;; ret (SnapRollback x))
  | Rename e => (x <- RenameEvent.decode m_version e ;; ret (Rename x))
  | Resize e => (x <- ResizeEvent.decode m_version e ;; ret (Resize x))
  | Flatten e => (x <- OpEventBase.decode m_version e ;; ret (Flatten x))
  | Unknown e => (x <- UnknownEvent.decode m_version e ;; ret (Unknown x))
  end%dec.

(** [t.dump(m_formatter)], the last statement of [DumpVisitor]. *)
Definition dump_payload (ev : Event) (f : Formatter) : Formatter :=
  match ev with
  | AioDiscard e => AioDiscardEvent.dump e f
  | AioWrite e => AioWriteEvent.dump e f
  | AioFlush e => AioFlushEvent.dump e f
  | OpFinish e => OpFinishEvent.dump e f
  | SnapCreate e | SnapRemove e | SnapProtect e | SnapUnprotect e
  | SnapRollback e => SnapEventBase.dump e f
  | SnapRename e => SnapRenameEvent.dump e f
  | Rename e => RenameEvent.dump e f
  | Resize e => ResizeEvent.dump e f
  | Flatten e => OpEventBase.dump e f
  | Unknown e => UnknownEvent.dump e f
  end.

Definition DumpVisitor `{Types_h} (m_key : string) (ev : Event)
    (f : Formatter) : Formatter :=
  let type := GetTypeVisitor ev in
  dump_payload ev (f ++ [dump_string m_key (stringify_EventType type)]).
End EventVisitors.

Module EventEntry.
Import EventVisitors.
Record t : Type := make { event : Event }.

Definition get_event_type `{Types_h} (e : t) : Z := GetTypeVisitor (event e).

Definition encode `{Types_h} (e : t) : encoder :=
  fun bl =>
    let '(bl1, struct_len_off) := ENCODE_START 1 1 bl in
    match EncodeVisitor (event e) bl1 with
    | Done bl2 => Done (ENCODE_FINISH struct_len_off bl2)
    | Aborted bl2 => Aborted bl2
    end.

(** The switch of [EventEntry::decode]: the default-constructed
    payload that [event] is assigned. *)
Definition select_payload `{Types_h} (event_type : Z) : Event :=
  if event_type =? EVENT_TYPE_AIO_DISCARD then AioDiscard AioDiscardEvent.default
  else if event_type =? EVENT_TYPE_AIO_WRITE then AioWrite AioWriteEvent.default
  else if event_type =? EVENT_TYPE_AIO_FLUSH then AioFlush AioFlushEvent.default
  else if event_type =? EVENT_TYPE_OP_FINISH then OpFinish OpFinishEvent.default
  else if event_type =? EVENT_TYPE_SNAP_CREATE then SnapCreate SnapEventBase.default
  else if event_type =? EVENT_TYPE_SNAP_REMOVE then SnapRemove SnapEventBase.default
  else if event_type =? EVENT_TYPE_SNAP_RENAME then SnapRename SnapRenameEvent.default
  else if event_type =? EVENT_TYPE_SNAP_PROTECT then SnapProtect SnapEventBase.default
  else if event_type =? EVENT_TYPE_SNAP_UNPROTECT
  then SnapUnprotect SnapEventBase.default
  else if event_type =? EVENT_TYPE_SNAP_ROLLBACK
  then SnapRollback SnapEventBase.default
  else if event_type =? EVENT_TYPE_RENAME then Rename RenameEvent.default
  else if event_type =? EVENT_TYPE_RESIZE then Resize ResizeEvent.default
  else if event_type =? EVENT_TYPE_FLATTEN then Flatten OpEventBase.default
  else Unknown UnknownEvent.default.

Definition decode `{Types_h} (e : t) : decoder t :=
  (hdr <- DECODE_START 1 ;;
   let struct_v := fst hdr in
   let struct_end := snd hdr in
   event_type <- decode_u32 ;;
   let e1 := make (select_payload event_type) in
   ev <- DecodeVisitor struct_v (event e1) ;;
   _ <- DECODE_FINISH struct_end ;;
   ret (make ev))%dec.

Definition dump `{Types_h} (e : t) (f : Formatter) : Formatter :=
  DumpVisitor "event_type" (event e) f.

(** The constructors with arguments that the fixtures call. *)
Definition snap_event (op_tid : Z) (snap_name : string) : SnapEventBase.t :=
  SnapEventBase.make (OpEventBase.make op_tid) snap_name.

Definition generate_test_instances `{Types_h} : list t :=
  let bl := repeat "1"%byte 32 in
  [ make (AioDiscard AioDiscardEvent.default);
    make (AioDiscard (AioDiscardEvent.make 123 345));
    make (AioWrite AioWriteEvent.default);
    make (AioWrite (AioWriteEvent.make 123 456 bl));
    make (AioFlush AioFlushEvent.default);
    make (OpFinish (OpFinishEvent.make (OpEventBase.make 123) (-1)));
    make (SnapCreate SnapEventBase.default);
    make (SnapCreate (snap_event 234 "snap"));
    make (SnapRemove SnapEventBase.default);
    make (SnapRemove (snap_event 345 "snap"));
    make (SnapRename SnapRenameEvent.default);
    make (SnapRename (SnapRenameEvent.make (snap_event 456 "snap") 1));
    make (SnapProtect SnapEventBase.default);
    make (SnapProtect (snap_event 567 "snap"));
    make (SnapUnprotect SnapEventBase.default);
    make (SnapUnprotect (snap_event 678 "snap"));
    make (SnapRollback SnapEventBase.default);
    make (SnapRollback (snap_event 789 "snap"));
    make (Rename RenameEvent.default);
    make (Rename (RenameEvent.make (OpEventBase.make 890) "image name"));
    make (Resize ResizeEvent.default);
    make (Resize (ResizeEvent.make (OpEventBase.make 901) 1234));
    make (Flatten (OpEventBase.make 123)) ].
End EventEntry.

(* ------------------------------------------------------------------ *)
(** *** Journal client metadata *)

(** [std::string::c_str()] handed to a [const std::string&] parameter:
    the characters before the first NUL. *)
Fixpoint c_str (s : string) : string :=
  match s with
  | EmptyString => EmptyString
  | String c s' => if Ascii.eqb c zero then EmptyString else String c (c_str s')
  end.

Module ImageClientMeta.
Record t : Type := make { tag_class : Z }.
Definition default : t := make 0.
Definition encode (m : t) : encoder := encode_u64 (tag_class m).
Definition decode (version : Z) (m : t) : decoder t :=
  (c <- decode_u64 ;; ret (make c))%dec.
Definition dump (m : t) (f : Formatter) : Formatter :=
  f ++ [dump_unsigned "tag_class" (tag_class m)].
End ImageClientMeta.

Module MirrorPeerClientMeta.
Record t : Type := make { cluster_id : string; pool_id : Z; image_id : string }.
Definition default : t := make "" 0 "".

Definition encode (m : t) : encoder :=
  (encode_string (cluster_id m) ;;
   encode_i64 (pool_id m) ;;
   encode_string (image_id m))%enc.

Definition decode (version : Z) (m : t) : decoder t :=
  (c <- decode_string ;;
   p <- decode_i64 ;;
   i <- decode_string ;;
   ret (make c p i))%dec.

Definition dump (m : t) (f : Formatter) : Formatter :=
  f ++ [dump_string "cluster_id" (c_str (cluster_id m));
        dump_int "pool_id" (pool_id m);
        dump_string "image_id" (c_str (image_id m))].
End MirrorPeerClientMeta.

Module CliClientMeta.
Record t : Type := make { }.
Definition default : t := make.
Definition encode (m : t) : encoder := skip_enc.
Definition decode (version : Z) (m : t) : decoder t := ret m.
Definition dump (m : t) (f : Formatter) : Formatter := f.
End CliClientMeta.

Module UnknownClientMeta.
Record t : Type := make { }.
Definition default : t := make.
Definition encode (m : t) : encoder := assert_false.
Definition decode (version : Z) (m : t) : decoder t := ret m.
Definition dump (m : t) (f : Formatter) : Formatter := f.
End UnknownClientMeta.

(** [typedef boost::variant<...> ClientMeta] *)
Inductive ClientMeta : Type :=
| ImageClient (m : ImageClientMeta.t)
| MirrorPeerClient (m : MirrorPeerClientMeta.t)
| CliClient (m : CliClientMeta.t)
| UnknownClient (m : UnknownClientMeta.t).

(** [std::ostream &operator<<(std::ostream &, const ClientMetaType &)] *)
Definition stringify_ClientMetaType `{Types_h} (type : Z) : string :=
  if type =? IMAGE_CLIENT_META_TYPE then "Master Image"
  else if type =? MIRROR_PEER_CLIENT_META_TYPE then "Mirror Peer"
  else if type =? CLI_CLIENT_META_TYPE then "CLI Tool"
  else ("Unknown (" ++ decimal type ++ ")")%string.

Module ClientMetaVisitors.
Definition GetTypeVisitor `{Types_h} (cm : ClientMeta) : Z :=
  match cm with
  | ImageClient _ => IMAGE_CLIENT_META_TYPE
  | MirrorPeerClient _ => MIRROR_PEER_CLIENT_META_TYPE
  | CliClient _ => CLI_CLIENT_META_TYPE
  | UnknownClient _ => UnknownClientMeta_TYPE
  end.

Definition encode_payload (cm : ClientMeta) : encoder :=
  match cm with
  | ImageClient m => ImageClientMeta.encode m
  | MirrorPeerClient m => MirrorPeerClientMeta.encode m
  | CliClient m => CliClientMeta.encode m
  | UnknownClient m => UnknownClientMeta.encode m
  end.

Definition EncodeVisitor `{Types_h} (cm : ClientMeta) : encoder :=
  (encode_u32 (GetTypeVisitor cm) ;; encode_payload cm)%enc.

Definition DecodeVisitor (m_version : Z) (cm : ClientMeta) : decoder ClientMeta :=
  match cm with
  | ImageClient m => (x <- ImageClientMeta.decode m_version m ;; ret (ImageClient x))
  | MirrorPeerClient m =>
      (x <- MirrorPeerClientMeta.decode m_version m ;; ret (MirrorPeerClient x))
  | CliClient m => (x <- CliClientMeta.decode m_version m ;; ret (CliClient x))
  | UnknownClient m =>
      (x <- UnknownClientMeta.decode m_version m ;; ret (UnknownClient x))
  end%dec.

Definition dump_payload (cm : ClientMeta) (f : Formatter) : Formatter :=
  match cm with
  | ImageClient m => ImageClientMeta.dump m f
  | MirrorPeerClient m => MirrorPeerClientMeta.dump m f
  | CliClient m => CliClientMeta.dump m f
  | UnknownClient m => UnknownClientMeta.dump m f
  end.

Definition DumpVisitor `{Types_h} (m_key : string) (cm : ClientMeta)
    (f : Formatter) : Formatter :=
  let type := GetTypeVisitor cm in
  dump_payload cm (f ++ [dump_string m_key (stringify_ClientMetaType type)]).
End ClientMetaVisitors.

Module ClientData.
Import ClientMetaVisitors.
Record t : Type := make { client_meta : ClientMeta }.

Definition get_client_meta_type `{Types_h} (c : t) : Z :=
  GetTypeVisitor (client_meta c).

Definition encode `{Types_h} (c : t) : encoder :=
  fun bl =>
    let '(bl1, struct_len_off) := ENCODE_START 1 1 bl in
    match EncodeVisitor (client_meta c) bl1 with
    | Done bl2 => Done (ENCODE_FINISH struct_len_off bl2)
    | Aborted bl2 => Aborted bl2
    end.

Definition select_payload `{Types_h} (client_meta_type : Z) : ClientMeta :=
  if client_meta_type =? IMAGE_CLIENT_META_TYPE
  then ImageClient ImageClientMeta.default
  else if client_meta_type =? MIRROR_PEER_CLIENT_META_TYPE
  then MirrorPeerClient MirrorPeerClientMeta.default
  else if client_meta_type =? CLI_CLIENT_META_TYPE
  then CliClient CliClientMeta.default
  else UnknownClient UnknownClientMeta.default.

Definition decode `{Types_h} (c : t) : decoder t :=
  (hdr <- DECODE_START 1 ;;
   let struct_v := fst hdr in
   let struct_end := snd hdr in
   client_meta_type <- decode_u32 ;;
   let c1 := make (select_payload client_meta_type) in
   cm <- DecodeVisitor struct_v (client_meta c1) ;;
   _ <- DECODE_FINISH struct_end ;;
   ret (make cm))%dec.

Definition dump `{Types_h} (c : t) (f : Formatter) : Formatter :=
  DumpVisitor "client_meta_type" (client_meta c) f.

Definition generate_test_instances : list t :=
  [ make (ImageClient ImageClientMeta.default);
    make (ImageClient (ImageClientMeta.make 123));
    make (MirrorPeerClient MirrorPeerClientMeta.default);
    make (MirrorPeerClient (MirrorPeerClientMeta.make "cluster_id" 123 "image_id"));
    make (CliClient CliClientMeta.default) ].
End ClientData.

(* ------------------------------------------------------------------ *)
(** *** Journal tag *)

Module TagData.
Record t : Type := make {
  cluster_id : string;
  pool_id : Z;
  image_id : string;
  predecessor_tag_tid : Z;
  predecessor_entry_tid : Z
}.
Definition default : t := make "" 0 "" 0 0.

Definition encode (d : t) : encoder :=
  (encode_string (cluster_id d) ;;
   encode_i64 (pool_id d) ;;
   encode_string (image_id d) ;;
   encode_u64 (predecessor_tag_tid d) ;;
   encode_u64 (predecessor_entry_tid d))%enc.

Definition decode (d : t) : decoder t :=
  (c <- decode_string ;;
   p <- decode_i64 ;;
   i <- decode_string ;;
   pt <- decode_u64 ;;
   pe <- decode_u64 ;;
   ret (make c p i pt pe))%dec.

Definition dump (d : t) (f : Formatter) : Formatter :=
  f ++ [dump_string "cluster_id" (c_str (cluster_id d));
        dump_int "pool_id" (pool_id d);
        dump_string "image_id" (c_str (image_id d));
        dump_unsigned "predecessor_tag_tid" (predecessor_tag_tid d);
        dump_unsigned "predecessor_entry_tid" (predecessor_entry_tid d)].

Definition generate_test_instances : list t :=
  [ default; make "cluster_id" 123 "image_id" 0 0 ].
End TagData.

(* ================================================================== *)
(** ** What an encoder writes, what a decoder reads *)

(** [writes e bs]: from any buffer, [e] completes having appended
    exactly [bs]. *)
Definition writes (e : encoder) (bs : list byte) : Prop :=
  forall bl, e bl = Done (bl ++ bs).

(** [reads d bs a]: wherever [bs] stands in a buffer, [d] started at
    its first byte yields [a] and stops just behind its last byte. *)
Definition reads {A} (d : decoder A) (bs : list byte) (a : A) : Prop :=
  forall pre post,
    d (pre ++ bs ++ post) (length pre) = Ok (a, (length pre + length bs)%nat).

(** What an encoder appends to the empty buffer. *)
Definition bytes_of (e : encoder) : list byte :=
  match e [] with
  | Done bl => bl
  | Aborted bl => bl
  end.

(** A blob or a string can be written only if its length fits the
    u32 prefix. *)
Definition fits_u32 (s : bufferlist) : Prop := Z.of_nat (length s) < 2 ^ 32.

(* ================================================================== *)
(** ** Values of the C++ types

    [valid_*]: the members hold values of their C++ types (a
    [uint64_t] is below 2^64, ...) and every string or blob is short
    enough for its u32 length prefix. *)

Definition valid_string (s : string) : Prop := fits_u32 (list_byte_of_string s).

Definition valid_OpEventBase (e : OpEventBase.t) : Prop :=
  is_u64 (OpEventBase.op_tid e).

Definition valid_SnapEventBase (e : SnapEventBase.t) : Prop :=
  valid_OpEventBase (SnapEventBase.base e) /\
  valid_string (SnapEventBase.snap_name e).

Definition valid_Event (ev : Event) : Prop :=
  match ev with
  | AioDiscard e =>
      is_u64 (AioDiscardEvent.offset e) /\ is_u64 (AioDiscardEvent.length e)
  | AioWrite e =>
      is_u64 (AioWriteEvent.offset e) /\ is_u64 (AioWriteEvent.length e) /\
      fits_u32 (AioWriteEvent.data e)
  | AioFlush _ => True
  | OpFinish e =>
      valid_OpEventBase (OpFinishEvent.base e) /\ is_i32 (OpFinishEvent.r e)
  | SnapCreate e | SnapRemove e | SnapProtect e | SnapUnprotect e
  | SnapRollback e => valid_SnapEventBase e
  | SnapRename e =>
      valid_SnapEventBase (SnapRenameEvent.base e) /\
      is_u64 (SnapRenameEvent.snap_id e)
  | Rename e =>
      valid_OpEventBase (RenameEvent.base e) /\
      valid_string (RenameEvent.image_name e)
  | Resize e =>
      valid_OpEventBase (ResizeEvent.base e) /\ is_u64 (ResizeEvent.size e)
  | Flatten e => valid_OpEventBase e
  | Unknown _ => True
  end.

Definition valid_ClientMeta (cm : ClientMeta) : Prop :=
  match cm with
  | ImageClient m => is_u64 (ImageClientMeta.tag_class m)
  | MirrorPeerClient m =>
      valid_string (MirrorPeerClientMeta.cluster_id m) /\
      is_i64 (MirrorPeerClientMeta.pool_id m) /\
      valid_string (MirrorPeerClientMeta.image_id m)
  | CliClient _ => True
  | UnknownClient _ => True
  end.

Definition valid_TagData (d : TagData.t) : Prop :=
  valid_string (TagData.cluster_id d) /\
  is_i64 (TagData.pool_id d) /\
  valid_string (TagData.image_id d) /\
  is_u64 (TagData.predecessor_tag_tid d) /\
  is_u64 (TagData.predecessor_entry_tid d).

(** The placeholders are the values that cannot be encoded. *)
Definition is_placeholder (ev : Event) : bool :=
  match ev with Unknown _ => true | _ => false end.

Definition is_client_placeholder (cm : ClientMeta) : bool :=
  match cm with UnknownClient _ => true | _ => false end.

(** The default-constructed payload of the same alternative. *)
Definition blank `{Types_h} (ev : Event) : Event :=
  match ev with
  | AioDiscard _ => AioDiscard AioDiscardEvent.default
  | AioWrite _ => AioWrite AioWriteEvent.default
  | AioFlush _ => AioFlush AioFlushEvent.default
  | OpFinish _ => OpFinish OpFinishEvent.default
  | SnapCreate _ => SnapCreate SnapEventBase.default
  | SnapRemove _ => SnapRemove SnapEventBase.default
  | SnapRename _ => SnapRename SnapRenameEvent.default
  | SnapProtect _ => SnapProtect SnapEventBase.default
  | SnapUnprotect _ => SnapUnprotect SnapEventBase.default
  | SnapRollback _ => SnapRollback SnapEventBase.default
  | Rename _ => Rename RenameEvent.default
  | Resize _ => Resize ResizeEvent.default
  | Flatten _ => Flatten OpEventBase.default
  | Unknown _ => Unknown UnknownEvent.default
  end.

Definition blank_client (cm : ClientMeta) : ClientMeta :=
  match cm with
  | ImageClient _ => ImageClient ImageClientMeta.default
  | MirrorPeerClient _ => MirrorPeerClient MirrorPeerClientMeta.default
  | CliClient _ => CliClient CliClientMeta.default
  | UnknownClient _ => UnknownClient UnknownClientMeta.default
  end.

(* ================================================================== *)
(** ** The envelope around a payload *)

(** The bytes of an envelope: the header of section 6 and the content
    whose length it declares. *)
Definition header (struct_v struct_compat struct_len : Z) : list byte :=
  le_bytes 1 struct_v ++ le_bytes 1 struct_compat ++ le_bytes 4 struct_len.

Definition envelope (struct_v struct_compat : Z) (content : list byte) : list byte :=
  header struct_v struct_compat (Z.of_nat (length content)) ++ content.

(** The decode functions of the two envelopes share one shape: the
    header, a body that is given the struct version, the finish. *)
Definition enveloped {A} (v : Z) (body : Z -> decoder A) : decoder A :=
  (hdr <- DECODE_START v ;;
   x <- body (fst hdr) ;;
   _ <- DECODE_FINISH (snd hdr) ;;
   ret x)%dec.

(** The bodies of the two envelopes. *)
Definition event_body `{Types_h} (struct_v : Z) : decoder EventEntry.t :=
  (event_type <- decode_u32 ;;
   ev <- EventVisitors.DecodeVisitor struct_v (EventEntry.select_payload event_type) ;;
   ret (EventEntry.make ev))%dec.

Definition client_body `{Types_h} (struct_v : Z) : decoder ClientData.t :=
  (client_meta_type <- decode_u32 ;;
   cm <- ClientMetaVisitors.DecodeVisitor struct_v
           (ClientData.select_payload client_meta_type) ;;
   ret (ClientData.make cm))%dec.

(** The content of an event envelope: the tag and the payload. *)
Definition event_content `{Types_h} (ev : Event) : list byte :=
  le_bytes 4 (EventVisitors.GetTypeVisitor ev)
    ++ bytes_of (EventVisitors.encode_payload ev).

Definition client_content `{Types_h} (cm : ClientMeta) : list byte :=
  le_bytes 4 (ClientMetaVisitors.GetTypeVisitor cm)
    ++ bytes_of (ClientMetaVisitors.encode_payload cm).

(* ================================================================== *)
(** ** The layout of section 6 *)

(** The layout of section 6, as a property of a byte sequence: a
    header whose length field counts what follows it, a u32
    discriminator, payload bytes. *)
Definition has_envelope_format (bs : list byte) : Prop :=
  exists sv cv disc payload,
    is_u8 sv /\ is_u8 cv /\ is_u32 disc /\
    bs = header sv cv (Z.of_nat (length (le_bytes 4 disc ++ payload)))
           ++ le_bytes 4 disc ++ payload.

(* ================================================================== *)
(** ** The data model of section 3 *)

(** The fields of a value as the tables of section 3 list them: the
    name, and the value under the kind the data model gives it (u64;
    i32 or i64; string; byte blob).  These definitions follow the
    spec, not the code. *)
Inductive field_value : Type :=
| unsigned_field (v : Z)
| signed_field (v : Z)
| string_field (s : string)
| blob_field (b : bufferlist).

Definition data_model_op (e : OpEventBase.t) : list (string * field_value) :=
  [("op_tid"%string, unsigned_field (OpEventBase.op_tid e))].

Definition data_model_snap (e : SnapEventBase.t) : list (string * field_value) :=
  data_model_op (SnapEventBase.base e)
    ++ [("snap_name"%string, string_field (SnapEventBase.snap_name e))].

Definition data_model_Event (ev : Event) : list (string * field_value) :=
  match ev with
  | AioDiscard e =>
      [("offset"%string, unsigned_field (AioDiscardEvent.offset e));
       ("length"%string, unsigned_field (AioDiscardEvent.length e))]
  | AioWrite e =>
      [("offset"%string, unsigned_field (AioWriteEvent.offset e));
       ("length"%string, unsigned_field (AioWriteEvent.length e));
       ("data"%string, blob_field (AioWriteEvent.data e))]
  | AioFlush _ => []
  | OpFinish e =>
      [("op_tid"%string, unsigned_field (OpFinishEvent.op_tid e));
       ("op_tid"%string, unsigned_field (OpFinishEvent.op_tid e));
       ("result"%string, signed_field (OpFinishEvent.r e))]
  | SnapCreate e | SnapRemove e | SnapProtect e | SnapUnprotect e
  | SnapRollback e => data_model_snap e
  | SnapRename e =>
      data_model_op (SnapEventBase.base (SnapRenameEvent.base e))
        ++ [("snap_id"%string, unsigned_field (SnapRenameEvent.snap_id e));
            ("snap_name"%string,
             string_field (SnapEventBase.snap_name (SnapRenameEvent.base e)))]
  | Rename e =>
      data_model_op (RenameEvent.base e)
        ++ [("image_name"%string, string_field (RenameEvent.image_name e))]
  | Resize e =>
      data_model_op (ResizeEvent.base e)
        ++ [("size"%string, unsigned_field (ResizeEvent.size e))]
  | Flatten e => data_model_op e
  | Unknown _ => []
  end.

Definition data_model_ClientMeta (cm : ClientMeta) : list (string * field_value) :=
  match cm with
  | ImageClient m =>
      [("tag_class"%string, unsigned_field (ImageClientMeta.tag_class m))]
  | MirrorPeerClient m =>
      [("cluster_id"%string, string_field (MirrorPeerClientMeta.cluster_id m));
       ("pool_id"%string, signed_field (MirrorPeerClientMeta.pool_id m));
       ("image_id"%string, string_field (MirrorPeerClientMeta.image_id m))]
  | CliClient _ => []
  | UnknownClient _ => []
  end.

Definition data_model_TagData (d : TagData.t) : list (string * field_value) :=
  [("cluster_id"%string, string_field (TagData.cluster_id d));
   ("pool_id"%string, signed_field (TagData.pool_id d));
   ("image_id"%string, string_field (TagData.image_id d));
   ("predecessor_tag_tid"%string, unsigned_field (TagData.predecessor_tag_tid d));
   ("predecessor_entry_tid"%string,
    unsigned_field (TagData.predecessor_entry_tid d))].

(** A dumped entry carries a field when it is of the field's kind and
    holds its value, under whatever key; a formatter emits a field
    when one of its entries carries it.  No entry carries a blob.
    This is the least that emitting a field can mean: it serves to
    show that a field is not emitted at all. *)
Definition carries (d : dumped) (fv : field_value) : Prop :=
  match d, fv with
  | dump_unsigned _ u, unsigned_field v => u = v
  | dump_int _ i, signed_field v => i = v
  | dump_string _ s, string_field v => s = v
  | _, _ => False
  end.

Definition emits (out : Formatter) (fv : field_value) : Prop :=
  exists d, In d out /\ carries d fv.

Definition is_blob (fv : field_value) : bool :=
  match fv with blob_field _ => true | _ => false end.

Fixpoint nul_free (s : string) : bool :=
  match s with
  | EmptyString => true
  | String c s' => negb (Ascii.eqb c zero) && nul_free s'
  end.

(** The key under which a field of the data model is to be found in a
    dump: the name of the field, but for the two fields of a
    [SnapRename] that the data model marks as the source and the
    destination. *)
Definition dump_key (ev : Event) (name : string) : string :=
  match ev with
  | SnapRename _ =>
      if String.eqb name "snap_id" then "src_snap_id"
      else if String.eqb name "snap_name" then "dest_snap_name"
      else name
  | _ => name
  end.

(** A dumped entry is a field as a named value when it has the
    field's key, is of the field's kind (unsigned integer, signed
    integer or string) and holds the field's value; where the string
    is handed over as a C string, it holds the value when the value
    has no NUL character.  No entry is a blob as a named value. *)
Definition named_value (c_string : bool) (key : string) (fv : field_value)
    (d : dumped) : Prop :=
  match fv, d with
  | unsigned_field v, dump_unsigned k u => k = key /\ u = v
  | signed_field v, dump_int k i => k = key /\ i = v
  | string_field v, dump_string k s =>
      k = key /\ (if c_string then nul_free v = true -> s = v else s = v)
  | _, _ => False
  end.

(** The fields of a data model that are no blobs, in their order. *)
Definition dumpable (fields : list (string * field_value))
    : list (string * field_value) :=
  filter (fun p => negb (is_blob (snd p))) fields.

(** The fields are emitted, each by an entry of its own and in their
    order, among the entries of a dump: [key] gives the key to look
    for, and entries in between are passed over. *)
Inductive emitted_in_order (c_string : bool) (key : string -> string)
    : list (string * field_value) -> Formatter -> Prop :=
| emitted_none (out : Formatter) : emitted_in_order c_string key [] out
| emitted_here (name : string) (fv : field_value) (d : dumped)
    (fields : list (string * field_value)) (out : Formatter) :
    named_value c_string (key name) fv d ->
    emitted_in_order c_string key fields out ->
    emitted_in_order c_string key ((name, fv) :: fields) (d :: out)
| emitted_later (d : dumped) (fields : list (string * field_value))
    (out : Formatter) :
    emitted_in_order c_string key fields out ->
    emitted_in_order c_string key fields (d :: out).

(* ================================================================== *)
(** ** Decoders look forward only *)

(** Two buffers that agree from a position on. *)
Definition same_from (off : nat) (bl bl' : bufferlist) : Prop :=
  length bl = length bl' /\ skipn off bl = skipn off bl'.

(** A decoder is local when its result depends on the buffer from the
    cursor on only, and forward when it never moves the cursor back. *)
Definition local {A} (d : decoder A) : Prop :=
  forall bl bl' off, same_from off bl bl' -> d bl off = d bl' off.

Definition forward {A} (d : decoder A) : Prop :=
  forall bl off a off', d bl off = Ok (a, off') -> (off <= off')%nat.

(** What an envelope's decode does once the struct version has been
    read: the rest of [DECODE_START], the body, [DECODE_FINISH]. *)
Definition after_struct_v {A} (v : Z) (body : decoder A) : decoder A :=
  (struct_compat <- decode_u8 ;;
   if v <? struct_compat
   then throw (malformed_input_oldversion v struct_compat)
   else
     struct_len <- decode_u32 ;;
     remaining <- get_remaining ;;
     if Z.of_nat remaining <? struct_len
     then throw malformed_input_past
     else
       off <- get_off ;;
       x <- body ;;
       _ <- DECODE_FINISH (off + Z.to_nat struct_len) ;;
       ret x)%dec.

(* ================================================================== *)
(** ** What a successful decode has consumed *)

(** [took bl off off' bs]: from [off] on the buffer holds [bs] and
    then what it holds from [off'] on; [off'] is [length bs] further. *)
Definition took (bl : bufferlist) (off off' : nat) (bs : list byte) : Prop :=
  off' = (off + length bs)%nat /\ skipn off bl = bs ++ skipn off' bl.

(** The payload bytes that decode to [ev]: the bytes that the encode
    of [ev] writes, except that for an [OpFinishEvent] the first of
    the two operation ids may be any u64. *)
Definition accepted_payload (ev : Event) (bs : list byte) : Prop :=
  match ev with
  | OpFinish e =>
      exists tid, is_u64 tid /\
        bs = le_bytes 8 tid ++ le_bytes 8 (OpFinishEvent.op_tid e)
               ++ le_bytes 4 (OpFinishEvent.r e)
  | _ => bs = bytes_of (EventVisitors.encode_payload ev)
  end.

(** [throws_only P d]: whatever [d] throws satisfies [P]. *)
Definition throws_only {A} (P : buffer_error -> Prop) (d : decoder A) : Prop :=
  forall bl off e, d bl off = Throw e -> P e.

(** The errors an envelope's decode can end with: the buffer ran out,
    the declared bytes are not there or were overrun, or the input
    asks for a reader newer than version 1. *)
Definition envelope_error (e : buffer_error) : Prop :=
  e = end_of_buffer \/ e = malformed_input_past \/
  exists compat, 1 < compat < 256 /\ e = malformed_input_oldversion 1 compat.

(* ================================================================== *)
(** The key under which a formatter call files its value. *)
Definition dumped_name (d : dumped) : string :=
  match d with
  | dump_unsigned name _ | dump_int name _ | dump_string name _ => name
  end.

(** ** Lemmas: little-endian bytes *)

Lemma Z_of_byte_range (b : byte) : 0 <= Z_of_byte b < 256.
Proof.
  unfold Z_of_byte. pose proof (Byte.to_N_bounded b) as H.
  lia.
Qed.

Lemma Z_of_byte_of_Z (z : Z) : Z_of_byte (byte_of_Z z) = z mod 256.
Proof.
  unfold Z_of_byte, byte_of_Z.
  assert (Hr : 0 <= z mod 256 < 256) by (apply Z.mod_pos_bound; lia).
  destruct (Byte.of_N (Z.to_N (z mod 256))) as [b|] eqn:E.
  - apply Byte.to_of_N in E. rewrite E. lia.
  - apply Byte.of_N_None_iff in E. lia.
Qed.

Lemma byte_of_Z_of_byte (b : byte) : byte_of_Z (Z_of_byte b) = b.
Proof.
  unfold byte_of_Z.
  rewrite Z.mod_small by (pose proof (Z_of_byte_range b); lia).
  unfold Z_of_byte. rewrite N2Z.id, Byte.of_to_N. reflexivity.
Qed.

Lemma le_bytes_length (n : nat) (v : Z) : length (le_bytes n v) = n.
Proof.
  revert v. induction n as [|n IH]; intros v; simpl; [reflexivity|].
  now rewrite IH.
Qed.

Lemma le_value_range (bs : list byte) :
  0 <= le_value bs < 256 ^ Z.of_nat (length bs).
Proof.
  induction bs as [|b bs IH].
  - simpl. lia.
  - cbn [le_value length]. rewrite Nat2Z.inj_succ, Z.pow_succ_r by lia.
    pose proof (Z_of_byte_range b). lia.
Qed.

Lemma le_value_le_bytes (n : nat) (v : Z) :
  le_value (le_bytes n v) = v mod 256 ^ Z.of_nat n.
Proof.
  revert v. induction n as [|n IH]; intros v.
  - simpl. now rewrite Z.mod_1_r.
  - cbn [le_bytes le_value]. rewrite IH, Z_of_byte_of_Z.
    rewrite Nat2Z.inj_succ, Z.pow_succ_r by lia.
    rewrite Z.rem_mul_r by lia. reflexivity.
Qed.

Lemma le_bytes_le_value (bs : list byte) :
  le_bytes (length bs) (le_value bs) = bs.
Proof.
  induction bs as [|b bs IH]; [reflexivity|].
  cbn [length le_bytes le_value].
  pose proof (Z_of_byte_range b) as Hb.
  assert (Hq : (Z_of_byte b + 256 * le_value bs) / 256 = le_value bs).
  { rewrite Z.add_comm, Z.mul_comm, Z.div_add_l by lia.
    rewrite Z.div_small by lia. lia. }
  assert (Hm : byte_of_Z (Z_of_byte b + 256 * le_value bs) = b).
  { unfold byte_of_Z. rewrite (Z.mul_comm 256), Z.mod_add by lia.
    exact (byte_of_Z_of_byte b). }
  now rewrite Hq, Hm, IH.
Qed.

Lemma to_signed_mod (w v : Z) :
  0 < w -> - 2 ^ (w - 1) <= v < 2 ^ (w - 1) -> to_signed w (v mod 2 ^ w) = v.
Proof.
  intros Hw Hv. unfold to_signed.
  assert (E : 2 ^ w = 2 * 2 ^ (w - 1)).
  { replace w with (Z.succ (w - 1)) at 1 by lia. apply Z.pow_succ_r. lia. }
  destruct (Z_lt_le_dec v 0) as [Hn|Hp].
  - assert (Em : v mod 2 ^ w = v + 2 ^ w).
    { symmetry. apply Z.mod_unique with (q := -1); lia. }
    rewrite Em. destruct (Z.ltb_spec (v + 2 ^ w) (2 ^ (w - 1))); lia.
  - rewrite Z.mod_small by lia.
    destruct (Z.ltb_spec v (2 ^ (w - 1))); lia.
Qed.

(* ================================================================== *)
(** ** Lemmas: encoders and decoders *)

Lemma writes_append (bs : list byte) : writes (append bs) bs.
Proof. intros bl. reflexivity. Qed.

Lemma writes_skip : writes skip_enc [].
Proof. intros bl. unfold skip_enc. now rewrite app_nil_r. Qed.

Lemma writes_seq (e1 e2 : encoder) (b1 b2 : list byte) :
  writes e1 b1 -> writes e2 b2 -> writes (e1 ;; e2)%enc (b1 ++ b2).
Proof.
  intros H1 H2 bl. unfold seq_enc. rewrite H1, H2. now rewrite app_assoc.
Qed.

Lemma writes_bytes_of (e : encoder) (bs : list byte) :
  writes e bs -> bytes_of e = bs.
Proof. intros H. unfold bytes_of. now rewrite H. Qed.

Lemma writes_bufferlist (s : bufferlist) :
  writes (encode_bufferlist s) (le_bytes 4 (Z.of_nat (length s)) ++ s).
Proof. apply writes_seq; apply writes_append. Qed.

Create HintDb wire.
#[local] Hint Resolve writes_append writes_skip writes_seq writes_bufferlist
  : wire.

Lemma reads_ret {A} (a : A) : reads (ret a) [] a.
Proof. intros pre post. unfold ret. simpl. now rewrite Nat.add_0_r. Qed.

Lemma reads_bind {A B} (d : decoder A) (k : A -> decoder B)
    (b1 b2 : list byte) (a : A) (b : B) :
  reads d b1 a -> reads (k a) b2 b -> reads (bind d k) (b1 ++ b2) b.
Proof.
  intros H1 H2 pre post. unfold bind.
  rewrite <- app_assoc, H1.
  specialize (H2 (pre ++ b1) post).
  rewrite length_app in H2. rewrite <- app_assoc in H2. rewrite H2.
  rewrite length_app, Nat.add_assoc. reflexivity.
Qed.

Lemma reads_bind_ret {A B} (d : decoder A) (f : A -> B)
    (bs : list byte) (a : A) :
  reads d bs a -> reads (bind d (fun x => ret (f x))) bs (f a).
Proof.
  intros H. rewrite <- (app_nil_r bs).
  eapply reads_bind; [exact H | apply reads_ret].
Qed.

Lemma firstn_skipn_middle {A} (pre bs post : list A) :
  firstn (length bs) (skipn (length pre) (pre ++ bs ++ post)) = bs.
Proof.
  rewrite skipn_app, skipn_all, Nat.sub_diag. simpl.
  rewrite firstn_app, firstn_all, Nat.sub_diag. simpl. apply app_nil_r.
Qed.

Lemma reads_copy (bs : list byte) : reads (copy (length bs)) bs bs.
Proof.
  intros pre post. unfold copy.
  rewrite firstn_skipn_middle.
  destruct (Nat.leb_spec (length pre + length bs) (length (pre ++ bs ++ post)))
    as [_|Hlt]; [reflexivity|].
  rewrite !length_app in Hlt. lia.
Qed.

Lemma reads_fixed (n : nat) (v : Z) :
  0 <= v < 256 ^ Z.of_nat n ->
  reads (bs <- copy n ;; ret (le_value bs))%dec (le_bytes n v) v.
Proof.
  intros Hv.
  pose proof (reads_bind_ret (copy n) le_value (le_bytes n v) (le_bytes n v)) as H.
  rewrite le_value_le_bytes, Z.mod_small in H by assumption.
  apply H. rewrite <- (le_bytes_length n v) at 1. apply reads_copy.
Qed.

Lemma reads_u8 (v : Z) : is_u8 v -> reads decode_u8 (le_bytes 1 v) v.
Proof. intros H. apply (reads_fixed 1). exact H. Qed.

Lemma reads_u32 (v : Z) : is_u32 v -> reads decode_u32 (le_bytes 4 v) v.
Proof. intros H. apply (reads_fixed 4). exact H. Qed.

Lemma reads_u64 (v : Z) : is_u64 v -> reads decode_u64 (le_bytes 8 v) v.
Proof. intros H. apply (reads_fixed 8). exact H. Qed.

Lemma reads_signed (n : nat) (v : Z) :
  (0 < n)%nat ->
  - 2 ^ (8 * Z.of_nat n - 1) <= v < 2 ^ (8 * Z.of_nat n - 1) ->
  reads (bs <- copy n ;; ret (to_signed (8 * Z.of_nat n) (le_value bs)))%dec
        (le_bytes n v) v.
Proof.
  intros Hn Hv.
  pose proof (reads_bind_ret (copy n) (fun bs => to_signed (8 * Z.of_nat n) (le_value bs))
                (le_bytes n v) (le_bytes n v)) as H.
  cbv beta in H. rewrite le_value_le_bytes in H.
  replace (256 ^ Z.of_nat n) with (2 ^ (8 * Z.of_nat n)) in H
    by (rewrite Z.pow_mul_r by lia; reflexivity).
  rewrite to_signed_mod in H by lia.
  apply H. rewrite <- (le_bytes_length n v) at 1. apply reads_copy.
Qed.

Lemma reads_i32 (v : Z) : is_i32 v -> reads decode_i32 (le_bytes 4 v) v.
Proof. intros H. apply (reads_signed 4); [lia | exact H]. Qed.

Lemma reads_i64 (v : Z) : is_i64 v -> reads decode_i64 (le_bytes 8 v) v.
Proof. intros H. apply (reads_signed 8); [lia | exact H]. Qed.

Lemma reads_bufferlist (s : bufferlist) :
  fits_u32 s ->
  reads decode_bufferlist (le_bytes 4 (Z.of_nat (length s)) ++ s) s.
Proof.
  intros Hs. unfold decode_bufferlist.
  eapply reads_bind.
  - apply reads_u32. unfold is_u32, fits_u32 in *. lia.
  - cbv beta. rewrite Nat2Z.id. apply reads_copy.
Qed.

Lemma reads_string (s : string) :
  fits_u32 (list_byte_of_string s) ->
  reads decode_string (bytes_of (encode_string s)) s.
Proof.
  intros Hs. unfold encode_string.
  rewrite (writes_bytes_of _ _ (writes_bufferlist _)).
  pose proof (reads_bind_ret decode_bufferlist string_of_list_byte _ _
                (reads_bufferlist _ Hs)) as H.
  rewrite string_of_list_byte_of_string in H. exact H.
Qed.

Lemma writes_string (s : string) :
  writes (encode_string s) (bytes_of (encode_string s)).
Proof.
  unfold encode_string.
  rewrite (writes_bytes_of _ _ (writes_bufferlist _)).
  apply writes_bufferlist.
Qed.

#[local] Hint Resolve reads_u8 reads_u32 reads_u64 reads_i32 reads_i64
  reads_bufferlist reads_string reads_ret writes_string : wire.

(* ================================================================== *)
(** ** Lemmas: the payload codecs, variant by variant *)

Lemma OpEventBase_writes (e : OpEventBase.t) :
  writes (OpEventBase.encode e) (le_bytes 8 (OpEventBase.op_tid e)).
Proof. apply writes_append. Qed.

Lemma OpEventBase_reads (version : Z) (e0 e : OpEventBase.t) :
  valid_OpEventBase e ->
  reads (OpEventBase.decode version e0) (le_bytes 8 (OpEventBase.op_tid e)) e.
Proof.
  intros H. destruct e as [tid]. unfold OpEventBase.decode.
  apply (reads_bind_ret decode_u64 OpEventBase.make). now apply reads_u64.
Qed.

Lemma SnapEventBase_writes (e : SnapEventBase.t) :
  writes (SnapEventBase.encode e)
    (le_bytes 8 (OpEventBase.op_tid (SnapEventBase.base e))
       ++ bytes_of (encode_string (SnapEventBase.snap_name e))).
Proof. apply writes_seq; [apply OpEventBase_writes | apply writes_string]. Qed.

Lemma SnapEventBase_reads (version : Z) (e0 e : SnapEventBase.t) :
  valid_SnapEventBase e ->
  reads (SnapEventBase.decode version e0)
    (le_bytes 8 (OpEventBase.op_tid (SnapEventBase.base e))
       ++ bytes_of (encode_string (SnapEventBase.snap_name e))) e.
Proof.
  intros [Hb Hs]. destruct e as [b s]. unfold SnapEventBase.decode.
  eapply reads_bind; [apply OpEventBase_reads; exact Hb|].
  apply (reads_bind_ret decode_string (SnapEventBase.make b)).
  now apply reads_string.
Qed.

#[local] Hint Resolve OpEventBase_writes OpEventBase_reads
  SnapEventBase_writes SnapEventBase_reads : wire.

(** Every payload other than the placeholder is written in full. *)
Lemma encode_payload_writes (ev : Event) :
  is_placeholder ev = false ->
  writes (EventVisitors.encode_payload ev)
         (bytes_of (EventVisitors.encode_payload ev)).
Proof.
  intros Hp.
  assert (H : exists bs, writes (EventVisitors.encode_payload ev) bs).
  { destruct ev as [e|e|e|e|e|e|e|e|e|e|e|e|e|e]; try discriminate Hp;
      cbn [EventVisitors.encode_payload];
      unfold AioDiscardEvent.encode, AioWriteEvent.encode, AioFlushEvent.encode,
        OpFinishEvent.encode, SnapRenameEvent.encode, RenameEvent.encode,
        ResizeEvent.encode, encode_u64, encode_i32;
      eexists; eauto 10 with wire. }
  destruct H as [bs H]. now rewrite (writes_bytes_of _ _ H).
Qed.

Lemma OpFinishEvent_writes (e : OpFinishEvent.t) :
  writes (OpFinishEvent.encode e)
    (le_bytes 8 (OpFinishEvent.op_tid e) ++ le_bytes 8 (OpFinishEvent.op_tid e)
       ++ le_bytes 4 (OpFinishEvent.r e)).
Proof.
  unfold OpFinishEvent.encode.
  apply writes_seq; [apply OpEventBase_writes|].
  apply writes_seq; apply writes_append.
Qed.

(** Decoding reads the operation id twice; the object keeps the second
    one. *)
Lemma OpFinishEvent_reads_any (version : Z) (e0 : OpFinishEvent.t)
    (tid1 tid2 r : Z) :
  is_u64 tid1 -> is_u64 tid2 -> is_i32 r ->
  reads (OpFinishEvent.decode version e0)
    (le_bytes 8 tid1 ++ le_bytes 8 tid2 ++ le_bytes 4 r)
    (OpFinishEvent.make (OpEventBase.make tid2) r).
Proof.
  intros H1 H2 Hr. unfold OpFinishEvent.decode.
  eapply reads_bind.
  { apply (OpEventBase_reads version _ (OpEventBase.make tid1)). exact H1. }
  cbv beta zeta.
  eapply reads_bind; [apply reads_u64; exact H2|].
  cbn [OpFinishEvent.base OpFinishEvent.r].
  apply (reads_bind_ret decode_i32 (OpFinishEvent.make (OpEventBase.make tid2))).
  apply reads_i32. exact Hr.
Qed.

Lemma OpFinishEvent_reads (version : Z) (e0 e : OpFinishEvent.t) :
  valid_OpEventBase (OpFinishEvent.base e) -> is_i32 (OpFinishEvent.r e) ->
  reads (OpFinishEvent.decode version e0)
    (le_bytes 8 (OpFinishEvent.op_tid e) ++ le_bytes 8 (OpFinishEvent.op_tid e)
       ++ le_bytes 4 (OpFinishEvent.r e)) e.
Proof.
  intros Hb Hr. destruct e as [[tid] r].
  apply OpFinishEvent_reads_any; assumption.
Qed.

(** Replaces [bytes_of e] in the goal by the bytes [e] is shown to
    write. *)
Ltac known_bytes tac :=
  match goal with
  | |- context [bytes_of ?e] =>
      let H := fresh "Hw" in
      eassert (H : writes e _) by tac;
      rewrite (writes_bytes_of _ _ H); clear H
  end.

Lemma DecodeVisitor_reads `{Types_h} (version : Z) (ev : Event) :
  valid_Event ev ->
  reads (EventVisitors.DecodeVisitor version (blank ev))
        (bytes_of (EventVisitors.encode_payload ev)) ev.
Proof.
  intros Hv.
  destruct ev as [e|e|e|e|e|e|e|e|e|e|e|e|e|e];
    cbn [EventVisitors.encode_payload EventVisitors.DecodeVisitor blank
         valid_Event] in *.
  - destruct e as [o l], Hv as [Ho Hl].
    known_bytes ltac:(apply writes_seq; apply writes_append).
    apply (reads_bind_ret _ AioDiscard). unfold AioDiscardEvent.decode.
    cbn [AioDiscardEvent.offset AioDiscardEvent.length].
    eapply reads_bind; [apply reads_u64; exact Ho|].
    apply (reads_bind_ret decode_u64 (AioDiscardEvent.make o)).
    apply reads_u64; exact Hl.
  - destruct e as [o l d], Hv as (Ho & Hl & Hd).
    known_bytes ltac:(apply writes_seq; [apply writes_append|];
                      apply writes_seq; [apply writes_append|];
                      apply writes_bufferlist).
    apply (reads_bind_ret _ AioWrite). unfold AioWriteEvent.decode.
    cbn [AioWriteEvent.offset AioWriteEvent.length AioWriteEvent.data].
    eapply reads_bind; [apply reads_u64; exact Ho|].
    eapply reads_bind; [apply reads_u64; exact Hl|].
    apply (reads_bind_ret decode_bufferlist (AioWriteEvent.make o l)).
    apply reads_bufferlist; exact Hd.
  - known_bytes ltac:(apply writes_skip).
    destruct e. apply (reads_bind_ret _ AioFlush). apply reads_ret.
  - destruct Hv as [Hb Hr].
    known_bytes ltac:(apply OpFinishEvent_writes).
    apply (reads_bind_ret _ OpFinish). now apply OpFinishEvent_reads.
  - known_bytes ltac:(apply SnapEventBase_writes).
    apply (reads_bind_ret _ SnapCreate). now apply SnapEventBase_reads.
  - known_bytes ltac:(apply SnapEventBase_writes).
    apply (reads_bind_ret _ SnapRemove). now apply SnapEventBase_reads.
  - destruct e as [b i], Hv as [Hb Hi].
    known_bytes ltac:(apply writes_seq;
                      [apply SnapEventBase_writes | apply writes_append]).
    apply (reads_bind_ret _ SnapRename). unfold SnapRenameEvent.decode.
    cbn [SnapRenameEvent.base SnapRenameEvent.snap_id] in *.
    eapply reads_bind; [apply SnapEventBase_reads; exact Hb|].
    apply (reads_bind_ret decode_u64 (SnapRenameEvent.make b)).
    apply reads_u64; exact Hi.
  - known_bytes ltac:(apply SnapEventBase_writes).
    apply (reads_bind_ret _ SnapProtect). now apply SnapEventBase_reads.
  - known_bytes ltac:(apply SnapEventBase_writes).
    apply (reads_bind_ret _ SnapUnprotect). now apply SnapEventBase_reads.
  - known_bytes ltac:(apply SnapEventBase_writes).
    apply (reads_bind_ret _ SnapRollback). now apply SnapEventBase_reads.
  - destruct e as [b s], Hv as [Hb Hs].
    known_bytes ltac:(apply writes_seq;
                      [apply OpEventBase_writes | apply writes_string]).
    apply (reads_bind_ret _ Rename). unfold RenameEvent.decode.
    cbn [RenameEvent.base RenameEvent.image_name] in *.
    eapply reads_bind; [apply OpEventBase_reads; exact Hb|].
    apply (reads_bind_ret decode_string (RenameEvent.make b)).
    apply reads_string; exact Hs.
  - destruct e as [b s], Hv as [Hb Hs].
    known_bytes ltac:(apply writes_seq;
                      [apply OpEventBase_writes | apply writes_append]).
    apply (reads_bind_ret _ Resize). unfold ResizeEvent.decode.
    cbn [ResizeEvent.base ResizeEvent.size] in *.
    eapply reads_bind; [apply OpEventBase_reads; exact Hb|].
    apply (reads_bind_ret decode_u64 (ResizeEvent.make b)).
    apply reads_u64; exact Hs.
  - known_bytes ltac:(apply OpEventBase_writes).
    apply (reads_bind_ret _ Flatten). now apply OpEventBase_reads.
  - destruct e. unfold bytes_of, UnknownEvent.encode, assert_false.
    apply (reads_bind_ret _ Unknown). apply reads_ret.
Qed.

Lemma client_DecodeVisitor_reads (version : Z) (cm : ClientMeta) :
  valid_ClientMeta cm ->
  reads (ClientMetaVisitors.DecodeVisitor version (blank_client cm))
        (bytes_of (ClientMetaVisitors.encode_payload cm)) cm.
Proof.
  intros Hv.
  destruct cm as [m|m|m|m];
    cbn [ClientMetaVisitors.encode_payload ClientMetaVisitors.DecodeVisitor
         blank_client valid_ClientMeta] in *.
  - destruct m as [c].
    known_bytes ltac:(apply writes_append).
    apply (reads_bind_ret _ ImageClient).
    apply (reads_bind_ret decode_u64 ImageClientMeta.make).
    apply reads_u64; exact Hv.
  - destruct m as [c p i], Hv as (Hc & Hp & Hi).
    known_bytes ltac:(apply writes_seq; [apply writes_string|];
                      apply writes_seq; [apply writes_append|];
                      apply writes_string).
    apply (reads_bind_ret _ MirrorPeerClient).
    unfold MirrorPeerClientMeta.decode.
    cbn [MirrorPeerClientMeta.cluster_id MirrorPeerClientMeta.pool_id
         MirrorPeerClientMeta.image_id] in *.
    eapply reads_bind; [apply reads_string; exact Hc|].
    eapply reads_bind; [apply reads_i64; exact Hp|].
    apply (reads_bind_ret decode_string (MirrorPeerClientMeta.make c p)).
    apply reads_string; exact Hi.
  - known_bytes ltac:(apply writes_skip).
    destruct m. apply (reads_bind_ret _ CliClient). apply reads_ret.
  - destruct m. unfold bytes_of, UnknownClientMeta.encode, assert_false.
    apply (reads_bind_ret _ UnknownClient). apply reads_ret.
Qed.

Lemma client_encode_payload_writes (cm : ClientMeta) :
  is_client_placeholder cm = false ->
  writes (ClientMetaVisitors.encode_payload cm)
         (bytes_of (ClientMetaVisitors.encode_payload cm)).
Proof.
  intros Hp.
  assert (H : exists bs, writes (ClientMetaVisitors.encode_payload cm) bs).
  { destruct cm as [m|m|m|m]; try discriminate Hp;
      cbn [ClientMetaVisitors.encode_payload];
      unfold ImageClientMeta.encode, MirrorPeerClientMeta.encode,
        CliClientMeta.encode, encode_u64, encode_i64;
      eexists; eauto 10 with wire. }
  destruct H as [bs H]. now rewrite (writes_bytes_of _ _ H).
Qed.

Lemma TagData_writes (d : TagData.t) :
  writes (TagData.encode d)
    (bytes_of (encode_string (TagData.cluster_id d))
       ++ le_bytes 8 (TagData.pool_id d)
       ++ bytes_of (encode_string (TagData.image_id d))
       ++ le_bytes 8 (TagData.predecessor_tag_tid d)
       ++ le_bytes 8 (TagData.predecessor_entry_tid d)).
Proof.
  unfold TagData.encode.
  apply writes_seq; [apply writes_string|].
  apply writes_seq; [apply writes_append|].
  apply writes_seq; [apply writes_string|].
  apply writes_seq; apply writes_append.
Qed.

Lemma TagData_reads (d0 d : TagData.t) :
  valid_TagData d -> reads (TagData.decode d0) (bytes_of (TagData.encode d)) d.
Proof.
  intros (Hc & Hp & Hi & Ht & He).
  rewrite (writes_bytes_of _ _ (TagData_writes d)).
  destruct d as [c p i pt pe]. unfold TagData.decode.
  cbn [TagData.cluster_id TagData.pool_id TagData.image_id
       TagData.predecessor_tag_tid TagData.predecessor_entry_tid] in *.
  eapply reads_bind; [apply reads_string; exact Hc|].
  eapply reads_bind; [apply reads_i64; exact Hp|].
  eapply reads_bind; [apply reads_string; exact Hi|].
  eapply reads_bind; [apply reads_u64; exact Ht|].
  apply (reads_bind_ret decode_u64 (TagData.make c p i pt)).
  apply reads_u64; exact He.
Qed.

(* ================================================================== *)
(** ** Lemmas: the envelope *)

Lemma header_length (sv cv len : Z) : length (header sv cv len) = 6%nat.
Proof. reflexivity. Qed.

Lemma ENCODE_START_FINISH (v compat : Z) (bl content : list byte) :
  ENCODE_FINISH (snd (ENCODE_START v compat bl))
                (fst (ENCODE_START v compat bl) ++ content)
  = bl ++ envelope v compat content.
Proof.
  unfold ENCODE_START, ENCODE_FINISH, copy_in, envelope, header.
  cbn [fst snd].
  set (bl1 := bl ++ le_bytes 1 v ++ le_bytes 1 compat).
  assert (Hlen : (length ((bl1 ++ le_bytes 4 0) ++ content) - length bl1 - 4
                  = length content)%nat).
  { rewrite !length_app, le_bytes_length. lia. }
  rewrite Hlen, le_bytes_length.
  rewrite <- (app_assoc bl1).
  rewrite firstn_app, firstn_all, Nat.sub_diag, firstn_O, app_nil_r.
  rewrite skipn_app.
  rewrite (skipn_all2 bl1) by lia.
  replace (length bl1 + 4 - length bl1)%nat with (length (le_bytes 4 0))
    by (rewrite le_bytes_length; lia).
  rewrite skipn_app, skipn_all, Nat.sub_diag. cbn [skipn app].
  subst bl1. now rewrite <- !app_assoc.
Qed.

Lemma bind_reads {A B} (d : decoder A) (k : A -> decoder B)
    (bs : list byte) (a : A) :
  reads d bs a ->
  forall pre post,
    bind d k (pre ++ bs ++ post) (length pre)
    = k a ((pre ++ bs) ++ post) (length (pre ++ bs)).
Proof.
  intros H pre post. unfold bind. rewrite H.
  now rewrite app_assoc, length_app.
Qed.

Lemma DECODE_START_ok (v : Z) (pre rest : list byte) (sv cv len : Z) :
  is_u8 sv -> is_u8 cv -> cv <= v ->
  0 <= len <= Z.of_nat (length rest) -> len < 2 ^ 32 ->
  DECODE_START v (pre ++ header sv cv len ++ rest) (length pre)
  = Ok ((sv, (length pre + 6 + Z.to_nat len)%nat), (length pre + 6)%nat).
Proof.
  intros Hsv Hcv Hle Hlen H32. unfold DECODE_START, header.
  rewrite <- !app_assoc.
  rewrite (bind_reads _ _ _ _ (reads_u8 sv Hsv)).
  rewrite (bind_reads _ _ _ _ (reads_u8 cv Hcv)).
  destruct (Z.ltb_spec v cv) as [Hlt|_]; [lia|].
  assert (Hl : is_u32 len) by (unfold is_u32; lia).
  rewrite (bind_reads _ _ _ _ (reads_u32 len Hl)).
  unfold bind, get_remaining, get_off, ret.
  destruct (Z.ltb_spec
              (Z.of_nat (length ((((pre ++ le_bytes 1 sv) ++ le_bytes 1 cv)
                                    ++ le_bytes 4 len) ++ rest)
                         - length (((pre ++ le_bytes 1 sv) ++ le_bytes 1 cv)
                                     ++ le_bytes 4 len))) len) as [Hlt|_].
  - rewrite !length_app, !le_bytes_length in Hlt. lia.
  - rewrite !length_app, !le_bytes_length.
    replace (length pre + 1 + 1 + 4)%nat with (length pre + 6)%nat by lia.
    reflexivity.
Qed.

Lemma DECODE_START_oldversion (v : Z) (pre rest : list byte) (sv cv : Z) :
  is_u8 sv -> is_u8 cv -> v < cv ->
  DECODE_START v (pre ++ le_bytes 1 sv ++ le_bytes 1 cv ++ rest) (length pre)
  = Throw (malformed_input_oldversion v cv).
Proof.
  intros Hsv Hcv Hlt. unfold DECODE_START.
  rewrite (bind_reads _ _ _ _ (reads_u8 sv Hsv)).
  rewrite (bind_reads _ _ _ _ (reads_u8 cv Hcv)).
  destruct (Z.ltb_spec v cv) as [_|Hge]; [reflexivity | lia].
Qed.

Lemma DECODE_FINISH_ok (bl : bufferlist) (off struct_end : nat) :
  (off <= struct_end <= length bl)%nat ->
  DECODE_FINISH struct_end bl off = Ok (tt, struct_end).
Proof.
  intros [H1 H2]. unfold DECODE_FINISH, bind, get_off, advance, ret, throw.
  destruct (Nat.ltb_spec struct_end off) as [Hlt|_]; [lia|].
  destruct (Nat.ltb_spec off struct_end) as [Hlt|Hge].
  - destruct (Nat.leb_spec (off + (struct_end - off)) (length bl)) as [_|Hgt];
      [|lia].
    do 2 f_equal. lia.
  - do 2 f_equal. lia.
Qed.

Lemma DECODE_FINISH_past (bl : bufferlist) (off struct_end : nat) :
  (struct_end < off)%nat ->
  DECODE_FINISH struct_end bl off = Throw malformed_input_past.
Proof.
  intros H. unfold DECODE_FINISH, bind, get_off, throw.
  destruct (Nat.ltb_spec struct_end off) as [_|Hge]; [reflexivity | lia].
Qed.

Lemma enveloped_run {A} (v : Z) (body : Z -> decoder A)
    (pre rest : list byte) (sv cv len : Z) :
  is_u8 sv -> is_u8 cv -> cv <= v ->
  0 <= len <= Z.of_nat (length rest) -> len < 2 ^ 32 ->
  let bl := pre ++ header sv cv len ++ rest in
  let struct_end := (length pre + 6 + Z.to_nat len)%nat in
  enveloped v body bl (length pre)
  = match body sv bl (length pre + 6)%nat with
    | Ok (x, off) =>
        if (struct_end <? off)%nat then Throw malformed_input_past
        else Ok (x, struct_end)
    | Throw e => Throw e
    end.
Proof.
  intros Hsv Hcv Hle Hlen H32 bl struct_end. subst bl.
  unfold enveloped, bind at 1.
  rewrite DECODE_START_ok by assumption. cbn [fst snd].
  unfold bind at 1.
  destruct (body sv _ _) as [[x off]|e]; [|reflexivity].
  unfold bind at 1. fold struct_end.
  destruct (Nat.ltb_spec struct_end off) as [Hlt|Hge].
  - now rewrite DECODE_FINISH_past.
  - rewrite DECODE_FINISH_ok; [reflexivity|].
    split; [exact Hge|]. subst struct_end.
    rewrite !length_app, header_length. lia.
Qed.

Lemma EventEntry_decode_enveloped `{Types_h} (e0 : EventEntry.t)
    (bl : bufferlist) (off : nat) :
  EventEntry.decode e0 bl off = enveloped 1 event_body bl off.
Proof.
  unfold EventEntry.decode, enveloped, event_body, bind.
  destruct (DECODE_START 1 bl off) as [[[sv se] o]|]; [|reflexivity].
  cbn [fst snd EventEntry.event].
  destruct (decode_u32 bl o) as [[ty o1]|]; [|reflexivity].
  destruct (EventVisitors.DecodeVisitor sv _ bl o1) as [[ev o2]|]; [|reflexivity].
  unfold ret at 2. destruct (DECODE_FINISH se bl o2) as [[[] o3]|]; reflexivity.
Qed.

Lemma ClientData_decode_enveloped `{Types_h} (c0 : ClientData.t)
    (bl : bufferlist) (off : nat) :
  ClientData.decode c0 bl off = enveloped 1 client_body bl off.
Proof.
  unfold ClientData.decode, enveloped, client_body, bind.
  destruct (DECODE_START 1 bl off) as [[[sv se] o]|]; [|reflexivity].
  cbn [fst snd ClientData.client_meta].
  destruct (decode_u32 bl o) as [[ty o1]|]; [|reflexivity].
  destruct (ClientMetaVisitors.DecodeVisitor sv _ bl o1) as [[cm o2]|];
    [|reflexivity].
  unfold ret at 2. destruct (DECODE_FINISH se bl o2) as [[[] o3]|]; reflexivity.
Qed.

(** An envelope whose body reads the front of the content: what the
    body leaves of the declared bytes is skipped. *)
Lemma enveloped_reads {A} (v : Z) (body : Z -> decoder A)
    (sv cv : Z) (content trailing : list byte) (a : A) :
  is_u8 sv -> is_u8 cv -> cv <= v -> fits_u32 (content ++ trailing) ->
  reads (body sv) content a ->
  reads (enveloped v body) (envelope sv cv (content ++ trailing)) a.
Proof.
  intros Hsv Hcv Hle Hfit Hbody pre post. unfold envelope.
  rewrite <- !app_assoc.
  pose proof (enveloped_run v body pre (content ++ trailing ++ post) sv cv
                (Z.of_nat (length (content ++ trailing))) Hsv Hcv Hle) as Hrun.
  cbv zeta in Hrun. rewrite Hrun; clear Hrun.
  - specialize (Hbody (pre ++ header sv cv (Z.of_nat (length (content ++ trailing))))
                      (trailing ++ post)).
    rewrite (length_app pre), header_length, <- app_assoc in Hbody.
    rewrite Hbody, Nat2Z.id.
    rewrite !length_app, header_length.
    destruct (Nat.ltb_spec (length pre + 6 + (length content + length trailing))
                           (length pre + 6 + length content)) as [Hlt|_];
      [lia|].
    do 2 f_equal. lia.
  - rewrite !length_app. lia.
  - exact Hfit.
Qed.

(* ================================================================== *)
(** ** The switches of the decode functions *)

(** Pulls the pairwise inequalities of the case labels out of a
    [NoDup] hypothesis. *)
Ltac split_not_in :=
  repeat match goal with
         | H : ~ (_ \/ _) |- _ =>
             let H1 := fresh "Hne" in
             apply Decidable.not_or in H; destruct H as [H1 H]
         | H : ~ False |- _ => clear H
         end.

Ltac distinct_labels H :=
  repeat match type of H with
         | NoDup (_ :: _) =>
             let Hin := fresh "Hin" in
             apply NoDup_cons_iff in H; destruct H as [Hin H];
             cbn [In] in Hin
         end;
  split_not_in.

(** Walks down the cases of a switch: the label that matches is taken,
    every other comparison is refuted by the inequalities. *)
Ltac switch_cases :=
  repeat match goal with
         | |- context [?a =? ?b] =>
             destruct (Z.eqb_spec a b);
             [ first [reflexivity | exfalso; congruence]
             | try (exfalso; congruence) ]
         end;
  try reflexivity.

Section Dispatch.
Context {K : Types_h} (HK : Types_h_ok K).

Lemma select_payload_known (ev : Event) :
  is_placeholder ev = false ->
  EventEntry.select_payload (EventVisitors.GetTypeVisitor ev) = blank ev.
Proof.
  intros Hp. pose proof (event_labels_distinct K HK) as Hnd.
  unfold event_catalog in Hnd. distinct_labels Hnd.
  destruct ev; try discriminate Hp;
    unfold EventEntry.select_payload;
    cbn [EventVisitors.GetTypeVisitor blank]; switch_cases.
Qed.

Lemma select_payload_unknown (d : Z) :
  ~ In d event_catalog ->
  EventEntry.select_payload d = Unknown UnknownEvent.default.
Proof.
  intros Hd. unfold event_catalog in Hd. cbn [In] in Hd. split_not_in.
  unfold EventEntry.select_payload. switch_cases.
Qed.

Lemma client_select_payload_known (cm : ClientMeta) :
  is_client_placeholder cm = false ->
  ClientData.select_payload (ClientMetaVisitors.GetTypeVisitor cm)
  = blank_client cm.
Proof.
  intros Hp. pose proof (client_meta_labels_distinct K HK) as Hnd.
  unfold client_meta_catalog in Hnd. distinct_labels Hnd.
  destruct cm; try discriminate Hp;
    unfold ClientData.select_payload;
    cbn [ClientMetaVisitors.GetTypeVisitor blank_client]; switch_cases.
Qed.

Lemma client_select_payload_unknown (d : Z) :
  ~ In d client_meta_catalog ->
  ClientData.select_payload d = UnknownClient UnknownClientMeta.default.
Proof.
  intros Hd. unfold client_meta_catalog in Hd. cbn [In] in Hd. split_not_in.
  unfold ClientData.select_payload. switch_cases.
Qed.

Lemma GetTypeVisitor_u32 (ev : Event) :
  is_u32 (EventVisitors.GetTypeVisitor ev).
Proof.
  pose proof (event_labels_u32 K HK) as Hf.
  pose proof (unknown_event_u32 K HK) as Hu.
  unfold event_catalog in Hf.
  repeat match type of Hf with
         | Forall _ (_ :: _) =>
             let Hx := fresh "Hx" in
             apply Forall_cons_iff in Hf; destruct Hf as [Hx Hf]
         end.
  destruct ev; cbn [EventVisitors.GetTypeVisitor]; assumption.
Qed.

Lemma client_GetTypeVisitor_u32 (cm : ClientMeta) :
  is_u32 (ClientMetaVisitors.GetTypeVisitor cm).
Proof.
  pose proof (client_meta_labels_u32 K HK) as Hf.
  pose proof (unknown_client_meta_u32 K HK) as Hu.
  unfold client_meta_catalog in Hf.
  repeat match type of Hf with
         | Forall _ (_ :: _) =>
             let Hx := fresh "Hx" in
             apply Forall_cons_iff in Hf; destruct Hf as [Hx Hf]
         end.
  destruct cm; cbn [ClientMetaVisitors.GetTypeVisitor]; assumption.
Qed.

End Dispatch.

(* ================================================================== *)
(** ** What the envelopes write *)

Section Envelopes.
Context {K : Types_h}.

Lemma EventEntry_encode_writes (e : EventEntry.t) :
  is_placeholder (EventEntry.event e) = false ->
  writes (EventEntry.encode e) (envelope 1 1 (event_content (EventEntry.event e))).
Proof.
  intros Hp bl. unfold EventEntry.encode.
  pose proof (ENCODE_START_FINISH 1 1 bl (event_content (EventEntry.event e)))
    as Hfin.
  destruct (ENCODE_START 1 1 bl) as [bl1 off]. cbn [fst snd] in Hfin.
  assert (Hw : writes (EventVisitors.EncodeVisitor (EventEntry.event e))
                      (event_content (EventEntry.event e))).
  { apply writes_seq; [apply writes_append|].
    now apply encode_payload_writes. }
  rewrite Hw, Hfin. reflexivity.
Qed.

Lemma ClientData_encode_writes (c : ClientData.t) :
  is_client_placeholder (ClientData.client_meta c) = false ->
  writes (ClientData.encode c)
         (envelope 1 1 (client_content (ClientData.client_meta c))).
Proof.
  intros Hp bl. unfold ClientData.encode.
  pose proof (ENCODE_START_FINISH 1 1 bl
                (client_content (ClientData.client_meta c))) as Hfin.
  destruct (ENCODE_START 1 1 bl) as [bl1 off]. cbn [fst snd] in Hfin.
  assert (Hw : writes (ClientMetaVisitors.EncodeVisitor (ClientData.client_meta c))
                      (client_content (ClientData.client_meta c))).
  { apply writes_seq; [apply writes_append|].
    now apply client_encode_payload_writes. }
  rewrite Hw, Hfin. reflexivity.
Qed.

(** Encoding a placeholder stops at the assertion, after the header
    with its unpatched length and the tag have been appended. *)
Lemma EventEntry_encode_placeholder (u : UnknownEvent.t) (bl : bufferlist) :
  EventEntry.encode (EventEntry.make (Unknown u)) bl
  = Aborted (bl ++ header 1 1 0 ++ le_bytes 4 UnknownEvent_TYPE).
Proof.
  unfold EventEntry.encode, ENCODE_START, EventVisitors.EncodeVisitor, seq_enc,
    encode_u32, append, header.
  cbn [EventEntry.event EventVisitors.encode_payload
       EventVisitors.GetTypeVisitor UnknownEvent.encode assert_false].
  now rewrite <- !app_assoc.
Qed.

Lemma ClientData_encode_placeholder (u : UnknownClientMeta.t) (bl : bufferlist) :
  ClientData.encode (ClientData.make (UnknownClient u)) bl
  = Aborted (bl ++ header 1 1 0 ++ le_bytes 4 UnknownClientMeta_TYPE).
Proof.
  unfold ClientData.encode, ENCODE_START, ClientMetaVisitors.EncodeVisitor,
    seq_enc, encode_u32, append, header.
  cbn [ClientData.client_meta ClientMetaVisitors.encode_payload
       ClientMetaVisitors.GetTypeVisitor UnknownClientMeta.encode assert_false].
  now rewrite <- !app_assoc.
Qed.

End Envelopes.

(* ================================================================== *)
(** ** Round trips *)

Section RoundTrip.
Context {K : Types_h} (HK : Types_h_ok K).

Lemma event_body_reads (struct_v : Z) (ev : Event) :
  is_placeholder ev = false -> valid_Event ev ->
  reads (event_body struct_v) (event_content ev) (EventEntry.make ev).
Proof.
  intros Hp Hv. unfold event_body, event_content.
  eapply reads_bind; [apply reads_u32, (GetTypeVisitor_u32 HK)|].
  cbv beta. rewrite (select_payload_known HK) by exact Hp.
  apply (reads_bind_ret _ EventEntry.make). now apply DecodeVisitor_reads.
Qed.

Lemma client_body_reads (struct_v : Z) (cm : ClientMeta) :
  is_client_placeholder cm = false -> valid_ClientMeta cm ->
  reads (client_body struct_v) (client_content cm) (ClientData.make cm).
Proof.
  intros Hp Hv. unfold client_body, client_content.
  eapply reads_bind; [apply reads_u32, (client_GetTypeVisitor_u32 HK)|].
  cbv beta. rewrite (client_select_payload_known HK) by exact Hp.
  apply (reads_bind_ret _ ClientData.make). now apply client_DecodeVisitor_reads.
Qed.

Lemma u8_1 : is_u8 1.
Proof. unfold is_u8. lia. Qed.

(** Decoding what [EventEntry::encode] wrote gives the entry back,
    whatever the receiving object held before. *)
Lemma EventEntry_round_trip (e0 e : EventEntry.t) :
  is_placeholder (EventEntry.event e) = false ->
  valid_Event (EventEntry.event e) ->
  fits_u32 (event_content (EventEntry.event e)) ->
  reads (EventEntry.decode e0) (bytes_of (EventEntry.encode e)) e.
Proof.
  intros Hp Hv Hfit pre post.
  rewrite (writes_bytes_of _ _ (EventEntry_encode_writes e Hp)).
  rewrite EventEntry_decode_enveloped.
  destruct e as [ev]. cbn [EventEntry.event] in *.
  rewrite <- (app_nil_r (event_content ev)).
  apply enveloped_reads; try apply u8_1; try lia.
  - now rewrite app_nil_r.
  - now apply event_body_reads.
Qed.

Lemma ClientData_round_trip (c0 c : ClientData.t) :
  is_client_placeholder (ClientData.client_meta c) = false ->
  valid_ClientMeta (ClientData.client_meta c) ->
  fits_u32 (client_content (ClientData.client_meta c)) ->
  reads (ClientData.decode c0) (bytes_of (ClientData.encode c)) c.
Proof.
  intros Hp Hv Hfit pre post.
  rewrite (writes_bytes_of _ _ (ClientData_encode_writes c Hp)).
  rewrite ClientData_decode_enveloped.
  destruct c as [cm]. cbn [ClientData.client_meta] in *.
  rewrite <- (app_nil_r (client_content cm)).
  apply enveloped_reads; try apply u8_1; try lia.
  - now rewrite app_nil_r.
  - now apply client_body_reads.
Qed.

End RoundTrip.

(* ================================================================== *)
(** ** The concrete numbering is a legal header *)

Lemma journal_types_ok : Types_h_ok journal_types.
Proof.
  constructor.
  - unfold event_catalog. cbn.
    repeat (apply NoDup_cons; [cbn [In]; lia|]). apply NoDup_nil.
  - unfold client_meta_catalog. cbn.
    repeat (apply NoDup_cons; [cbn [In]; lia|]). apply NoDup_nil.
  - unfold event_catalog. cbn.
    repeat (apply Forall_cons; [unfold is_u32; lia|]). apply Forall_nil.
  - unfold client_meta_catalog. cbn.
    repeat (apply Forall_cons; [unfold is_u32; lia|]). apply Forall_nil.
  - cbn. unfold is_u32. lia.
  - cbn. unfold is_u32. lia.
Qed.

Lemma reads_whole {A} (d : decoder A) (bs : list byte) (a : A) :
  reads d bs a -> d bs 0%nat = Ok (a, length bs).
Proof.
  intros H. specialize (H [] []). cbn [app length] in H.
  now rewrite app_nil_r in H.
Qed.

Lemma round_trip_whole {A} (e : encoder) (d : decoder A) (bs : list byte) (a : A) :
  writes e bs -> reads d (bytes_of e) a ->
  exists bl, e [] = Done bl /\ d bl 0%nat = Ok (a, length bl).
Proof.
  intros Hw Hr. rewrite (writes_bytes_of _ _ Hw) in Hr.
  exists bs. split; [apply (Hw []) | now apply reads_whole].
Qed.

(** Closes the side conditions of a round trip at a literal value. *)
Ltac literal_value :=
  cbn [valid_Event valid_ClientMeta EventEntry.event ClientData.client_meta];
  unfold valid_SnapEventBase, valid_OpEventBase, EventEntry.snap_event; cbn;
  repeat match goal with |- _ /\ _ => split end;
  first
    [ exact I
    | assumption
    | reflexivity
    | unfold is_u64, is_i32, is_i64; lia
    | unfold valid_string, fits_u32; vm_compute; reflexivity ].

Ltac literal_fits :=
  unfold fits_u32, event_content, client_content;
  rewrite length_app, le_bytes_length; vm_compute; reflexivity.

(* ================================================================== *)
(** ** Lemmas: headers byte by byte, unknown discriminators *)

Lemma le_bytes_1_byte (b : byte) : le_bytes 1 (Z_of_byte b) = [b].
Proof. cbn [le_bytes]. now rewrite byte_of_Z_of_byte. Qed.

Lemma Z_of_byte_u8 (b : byte) : is_u8 (Z_of_byte b).
Proof. unfold is_u8. pose proof (Z_of_byte_range b). lia. Qed.

(** Shared by the claims on unknown discriminators. *)
Lemma decode_unknown_event_reads (K : Types_h) (d sv cv : Z)
    (remaining : list byte) (e0 : EventEntry.t) :
  is_u32 d -> is_u8 sv -> 0 <= cv <= 1 ->
  fits_u32 (le_bytes 4 d ++ remaining) ->
  ~ In d event_catalog ->
  reads (EventEntry.decode e0) (envelope sv cv (le_bytes 4 d ++ remaining))
        (EventEntry.make (Unknown UnknownEvent.default)).
Proof.
  intros Hd Hsv Hcv Hfit Hout pre post.
  assert (Hcv8 : is_u8 cv) by (unfold is_u8; lia).
  rewrite EventEntry_decode_enveloped.
  apply enveloped_reads; try assumption; try lia.
  unfold event_body.
  rewrite <- (app_nil_r (le_bytes 4 d)).
  eapply reads_bind; [apply reads_u32; exact Hd|].
  cbv beta. rewrite select_payload_unknown by exact Hout.
  cbn [EventVisitors.DecodeVisitor]. unfold UnknownEvent.decode.
  apply (reads_bind_ret _ EventEntry.make).
  apply (reads_bind_ret _ Unknown). apply reads_ret.
Qed.

(** In such a sequence the four bytes after the first two hold the
    number of bytes that follow them. *)
Lemma envelope_format_length (bs : list byte) :
  has_envelope_format bs ->
  le_value (firstn 4 (skipn 2 bs)) = (Z.of_nat (length bs) - 6) mod 2 ^ 32.
Proof.
  intros (sv & cv & disc & payload & _ & _ & _ & ->).
  set (content := le_bytes 4 disc ++ payload).
  set (n := Z.of_nat (length content)).
  pose proof (firstn_skipn_middle (le_bytes 1 sv ++ le_bytes 1 cv)
                (le_bytes 4 n) content) as H.
  change (length (le_bytes 4 n)) with 4%nat in H.
  change (length (le_bytes 1 sv ++ le_bytes 1 cv)) with 2%nat in H.
  unfold header. rewrite <- !app_assoc.
  rewrite <- app_assoc in H. rewrite H.
  rewrite le_value_le_bytes. f_equal.
  rewrite !length_app. change (length (le_bytes 1 sv)) with 1%nat.
  change (length (le_bytes 1 cv)) with 1%nat.
  change (length (le_bytes 4 n)) with 4%nat. subst n. lia.
Qed.

(* ================================================================== *)
(** ** Lemmas: stringification and dumps *)

Lemma stringify_EventType_unknown `{Types_h} (type : Z) :
  ~ In type event_catalog ->
  stringify_EventType type = ("Unknown (" ++ decimal type ++ ")")%string.
Proof.
  intros Hd. unfold event_catalog in Hd. cbn [In] in Hd. split_not_in.
  unfold stringify_EventType. switch_cases.
Qed.

Lemma c_str_nul_free (s : string) : nul_free s = true -> c_str s = s.
Proof.
  induction s as [|c s IH]; [reflexivity|].
  cbn [nul_free c_str]. intros H. apply andb_prop in H. destruct H as [Hc Hs].
  destruct (Ascii.eqb c zero); [discriminate Hc|]. now rewrite IH.
Qed.

Lemma event_dump_payload_app (ev : Event) (f : Formatter) :
  EventVisitors.dump_payload ev f = f ++ EventVisitors.dump_payload ev [].
Proof.
  destruct ev; cbn;
    unfold AioDiscardEvent.dump, AioWriteEvent.dump, AioFlushEvent.dump,
      OpFinishEvent.dump, SnapRenameEvent.dump, SnapEventBase.dump,
      RenameEvent.dump, ResizeEvent.dump, OpEventBase.dump, UnknownEvent.dump;
    cbn [app]; rewrite <- ?app_assoc, ?app_nil_r; reflexivity.
Qed.

Lemma client_dump_payload_app (cm : ClientMeta) (f : Formatter) :
  ClientMetaVisitors.dump_payload cm f
  = f ++ ClientMetaVisitors.dump_payload cm [].
Proof.
  destruct cm; cbn;
    unfold ImageClientMeta.dump, MirrorPeerClientMeta.dump,
      CliClientMeta.dump, UnknownClientMeta.dump;
    cbn [app]; rewrite ?app_nil_r; reflexivity.
Qed.

(* ================================================================== *)
(** ** Lemmas: decoders look forward only *)

Lemma same_from_le (off off' : nat) (bl bl' : bufferlist) :
  same_from off bl bl' -> (off <= off')%nat -> same_from off' bl bl'.
Proof.
  intros [Hl Hs] Hle. split; [exact Hl|].
  replace off' with ((off' - off) + off)%nat by lia.
  rewrite <- !skipn_skipn. now rewrite Hs.
Qed.

Lemma same_from_after (pre rest : list byte) (a b : byte) :
  same_from (length pre + 1) (pre ++ a :: rest) (pre ++ b :: rest).
Proof.
  split.
  - rewrite !length_app. reflexivity.
  - rewrite Nat.add_comm, <- !skipn_skipn.
    rewrite !skipn_app, !skipn_all, !Nat.sub_diag. reflexivity.
Qed.

Lemma local_ret {A} (a : A) : local (ret a).
Proof. intros bl bl' off _. reflexivity. Qed.

Lemma forward_ret {A} (a : A) : forward (ret a).
Proof. intros bl off x off' H. injection H as _ <-. lia. Qed.

Lemma local_throw {A} (e : buffer_error) : local (@throw A e).
Proof. intros bl bl' off _. reflexivity. Qed.

Lemma forward_throw {A} (e : buffer_error) : forward (@throw A e).
Proof. intros bl off x off' H. discriminate H. Qed.

Lemma local_bind {A B} (d : decoder A) (k : A -> decoder B) :
  local d -> forward d -> (forall a, local (k a)) -> local (bind d k).
Proof.
  intros Hd Hf Hk bl bl' off Hsame. unfold bind.
  rewrite <- (Hd bl bl' off Hsame).
  destruct (d bl off) as [[a off']|e] eqn:E; [|reflexivity].
  apply Hk. eapply same_from_le; [exact Hsame|]. eapply Hf. exact E.
Qed.

Lemma forward_bind {A B} (d : decoder A) (k : A -> decoder B) :
  forward d -> (forall a, forward (k a)) -> forward (bind d k).
Proof.
  intros Hd Hk bl off b off' H. unfold bind in H.
  destruct (d bl off) as [[a o]|e] eqn:E; [|discriminate H].
  apply Hd in E. apply Hk in H. lia.
Qed.

Lemma local_get_off : local get_off.
Proof. intros bl bl' off _. reflexivity. Qed.

Lemma forward_get_off : forward get_off.
Proof. intros bl off x off' H. injection H as _ <-. lia. Qed.

Lemma local_get_remaining : local get_remaining.
Proof. intros bl bl' off [Hl _]. unfold get_remaining. now rewrite Hl. Qed.

Lemma forward_get_remaining : forward get_remaining.
Proof. intros bl off x off' H. injection H as _ <-. lia. Qed.

Lemma local_copy (n : nat) : local (copy n).
Proof. intros bl bl' off [Hl Hs]. unfold copy. now rewrite Hl, Hs. Qed.

Lemma forward_copy (n : nat) : forward (copy n).
Proof.
  intros bl off x off' H. unfold copy in H.
  destruct (off + n <=? length bl)%nat; [|discriminate H].
  injection H as _ <-. lia.
Qed.

Lemma local_advance (n : nat) : local (advance n).
Proof. intros bl bl' off [Hl _]. unfold advance. now rewrite Hl. Qed.

Lemma forward_advance (n : nat) : forward (advance n).
Proof.
  intros bl off x off' H. unfold advance in H.
  destruct (off + n <=? length bl)%nat; [|discriminate H].
  injection H as _ <-. lia.
Qed.

(** Takes a decoder written with [bind] apart. *)
Ltac forward_only :=
  repeat first
    [ progress intros
    | apply local_bind | apply forward_bind
    | apply local_ret | apply forward_ret
    | apply local_throw | apply forward_throw
    | apply local_copy | apply forward_copy
    | apply local_advance | apply forward_advance
    | apply local_get_off | apply forward_get_off
    | apply local_get_remaining | apply forward_get_remaining
    | match goal with
      | |- local (if ?c then _ else _) => destruct c
      | |- forward (if ?c then _ else _) => destruct c
      | |- local (match ?x with _ => _ end) => destruct x
      | |- forward (match ?x with _ => _ end) => destruct x
      end ].

Ltac unfold_decoders :=
  unfold decode_string, decode_bufferlist, decode_u8, decode_u32, decode_u64,
    decode_i32, decode_i64.

Lemma local_DecodeVisitor (v : Z) (ev : Event) :
  local (EventVisitors.DecodeVisitor v ev) /\
  forward (EventVisitors.DecodeVisitor v ev).
Proof.
  split; destruct ev; cbn [EventVisitors.DecodeVisitor];
    unfold AioDiscardEvent.decode, AioWriteEvent.decode, AioFlushEvent.decode,
      OpFinishEvent.decode, SnapRenameEvent.decode, SnapEventBase.decode,
      RenameEvent.decode, ResizeEvent.decode, OpEventBase.decode,
      UnknownEvent.decode;
    unfold_decoders; forward_only.
Qed.

Lemma local_client_DecodeVisitor (v : Z) (cm : ClientMeta) :
  local (ClientMetaVisitors.DecodeVisitor v cm) /\
  forward (ClientMetaVisitors.DecodeVisitor v cm).
Proof.
  split; destruct cm; cbn [ClientMetaVisitors.DecodeVisitor];
    unfold ImageClientMeta.decode, MirrorPeerClientMeta.decode,
      CliClientMeta.decode, UnknownClientMeta.decode;
    unfold_decoders; forward_only.
Qed.

Lemma enveloped_after_struct_v {A} (v : Z) (body : Z -> decoder A)
    (bl : bufferlist) (off : nat) :
  enveloped v body bl off
  = (struct_v <- decode_u8 ;; after_struct_v v (body struct_v))%dec bl off.
Proof.
  unfold enveloped, DECODE_START, after_struct_v, bind, get_remaining,
    get_off, ret, throw.
  destruct (decode_u8 bl off) as [[sv o]|]; [|reflexivity].
  destruct (decode_u8 bl o) as [[cv o1]|]; [|reflexivity].
  destruct (v <? cv); [reflexivity|].
  destruct (decode_u32 bl o1) as [[len o2]|]; [|reflexivity].
  destruct (Z.of_nat (length bl - o2) <? len); reflexivity.
Qed.

Lemma local_DECODE_FINISH (struct_end : nat) :
  local (DECODE_FINISH struct_end) /\ forward (DECODE_FINISH struct_end).
Proof. split; unfold DECODE_FINISH; forward_only. Qed.

Lemma local_after_struct_v {A} (v : Z) (body : decoder A) :
  local body -> forward body -> local (after_struct_v v body).
Proof.
  intros Hl Hf. unfold after_struct_v. unfold_decoders.
  forward_only; try assumption; apply local_DECODE_FINISH.
Qed.

Lemma after_struct_v_ext {A} (v : Z) (body body' : decoder A) :
  (forall bl off, body bl off = body' bl off) ->
  forall bl off, after_struct_v v body bl off = after_struct_v v body' bl off.
Proof.
  intros Hb bl off. unfold after_struct_v, bind.
  destruct (decode_u8 bl off) as [[cv o1]|]; [|reflexivity].
  destruct (v <? cv); [reflexivity|].
  destruct (decode_u32 bl o1) as [[len o2]|]; [|reflexivity].
  destruct (get_remaining bl o2) as [[rem o3]|]; [|reflexivity].
  destruct (Z.of_nat rem <? len); [reflexivity|].
  destruct (get_off bl o3) as [[o o4]|]; [|reflexivity].
  now rewrite Hb.
Qed.

Lemma decode_u8_at (pre rest : list byte) (b : byte) :
  decode_u8 (pre ++ b :: rest) (length pre) = Ok (Z_of_byte b, (length pre + 1)%nat).
Proof.
  pose proof (reads_u8 (Z_of_byte b) (Z_of_byte_u8 b) pre rest) as H.
  rewrite le_bytes_1_byte in H. exact H.
Qed.

(** The struct version byte of a header changes nothing in what an
    envelope's decode returns, provided the body ignores the version
    and looks forward only. *)
Lemma enveloped_struct_v_byte {A} (v : Z) (body : Z -> decoder A)
    (pre rest : list byte) (b1 b2 : byte) :
  (forall v1 v2 bl off, body v1 bl off = body v2 bl off) ->
  (forall sv, local (body sv)) -> (forall sv, forward (body sv)) ->
  enveloped v body (pre ++ b1 :: rest) (length pre)
  = enveloped v body (pre ++ b2 :: rest) (length pre).
Proof.
  intros Hv Hl Hf.
  rewrite !enveloped_after_struct_v. unfold bind.
  rewrite !decode_u8_at.
  rewrite (after_struct_v_ext v (body (Z_of_byte b1)) (body (Z_of_byte b2)))
    by apply Hv.
  apply local_after_struct_v; [apply Hl | apply Hf | apply same_from_after].
Qed.

Lemma event_body_version `{Types_h} (v1 v2 : Z) (bl : bufferlist) (off : nat) :
  event_body v1 bl off = event_body v2 bl off.
Proof.
  unfold event_body, bind.
  destruct (decode_u32 bl off) as [[ty o]|]; [|reflexivity].
  destruct (EventEntry.select_payload ty); reflexivity.
Qed.

Lemma client_body_version `{Types_h} (v1 v2 : Z) (bl : bufferlist) (off : nat) :
  client_body v1 bl off = client_body v2 bl off.
Proof.
  unfold client_body, bind.
  destruct (decode_u32 bl off) as [[ty o]|]; [|reflexivity].
  destruct (ClientData.select_payload ty); reflexivity.
Qed.

Lemma event_body_forward_only `{Types_h} (sv : Z) :
  local (event_body sv) /\ forward (event_body sv).
Proof.
  split; unfold event_body; unfold_decoders; forward_only;
    apply local_DecodeVisitor.
Qed.

Lemma client_body_forward_only `{Types_h} (sv : Z) :
  local (client_body sv) /\ forward (client_body sv).
Proof.
  split; unfold client_body; unfold_decoders; forward_only;
    apply local_client_DecodeVisitor.
Qed.

(* ================================================================== *)
(** ** Claims *)

(** C1.  Round trip of the fixtures: for every instance [v] that
    [EventEntry::generate_test_instances],
    [ClientData::generate_test_instances] or
    [TagData::generate_test_instances] produces, encoding [v] into an
    empty buffer completes, and decoding the bytes, into an object
    holding anything, yields [v] itself with every byte consumed.
    This holds for every numbering of the catalogs that C++ accepts
    and whatever snapshot id, a value of [uint64_t], the default
    constructor of [SnapRenameEvent] sets. *)
Theorem fixtures_round_trip (K : Types_h) (HK : Types_h_ok K)
    (Hid : is_u64 SnapRenameEvent_default_snap_id) :
  (forall v e0, In v EventEntry.generate_test_instances ->
     exists bl, EventEntry.encode v [] = Done bl /\
                EventEntry.decode e0 bl 0%nat = Ok (v, length bl)) /\
  (forall v c0, In v ClientData.generate_test_instances ->
     exists bl, ClientData.encode v [] = Done bl /\
                ClientData.decode c0 bl 0%nat = Ok (v, length bl)) /\
  (forall v d0, In v TagData.generate_test_instances ->
     exists bl, TagData.encode v [] = Done bl /\
                TagData.decode d0 bl 0%nat = Ok (v, length bl)).
Proof.
  split; [|split].
  - intros v e0 Hin.
    apply round_trip_whole
      with (bs := envelope 1 1 (event_content (EventEntry.event v))).
    + apply EventEntry_encode_writes.
      unfold EventEntry.generate_test_instances in Hin. cbn [In] in Hin.
      repeat (destruct Hin as [<-|Hin]; [reflexivity|]). destruct Hin.
    + unfold EventEntry.generate_test_instances in Hin. cbn [In] in Hin.
      repeat (destruct Hin as [<-|Hin];
              [apply (EventEntry_round_trip HK);
               [reflexivity | literal_value | literal_fits]|]).
      destruct Hin.
  - intros v c0 Hin.
    apply round_trip_whole
      with (bs := envelope 1 1 (client_content (ClientData.client_meta v))).
    + apply ClientData_encode_writes.
      unfold ClientData.generate_test_instances in Hin. cbn [In] in Hin.
      repeat (destruct Hin as [<-|Hin]; [reflexivity|]). destruct Hin.
    + unfold ClientData.generate_test_instances in Hin. cbn [In] in Hin.
      repeat (destruct Hin as [<-|Hin];
              [apply (ClientData_round_trip HK);
               [reflexivity | literal_value | literal_fits]|]).
      destruct Hin.
  - intros v d0 Hin.
    eapply round_trip_whole; [apply TagData_writes|].
    unfold TagData.generate_test_instances in Hin. cbn [In] in Hin.
    repeat (destruct Hin as [<-|Hin];
            [apply TagData_reads; unfold valid_TagData; literal_value|]).
    destruct Hin.
Qed.

Lemma fixtures_round_trip_witness :
  Types_h_ok journal_types /\
  is_u64 (@SnapRenameEvent_default_snap_id journal_types) /\
  (forall v e0, In v (@EventEntry.generate_test_instances journal_types) ->
     exists bl, @EventEntry.encode journal_types v [] = Done bl /\
                @EventEntry.decode journal_types e0 bl 0%nat = Ok (v, length bl)) /\
  (forall v c0, In v ClientData.generate_test_instances ->
     exists bl, @ClientData.encode journal_types v [] = Done bl /\
                @ClientData.decode journal_types c0 bl 0%nat = Ok (v, length bl)) /\
  (forall v d0, In v TagData.generate_test_instances ->
     exists bl, TagData.encode v [] = Done bl /\
                TagData.decode d0 bl 0%nat = Ok (v, length bl)).
Proof.
  split; [exact journal_types_ok|].
  assert (Hid : is_u64 (@SnapRenameEvent_default_snap_id journal_types))
    by (unfold is_u64; cbn; lia).
  split; [exact Hid|].
  exact (fixtures_round_trip journal_types journal_types_ok Hid).
Defined.

(** C2.  An unrecognized discriminator is not an error.  For every
    32-bit value [d] that is no case label of the switch, an envelope
    that a version-1 reader accepts and whose content starts with [d]
    decodes without error to the placeholder ([UnknownEvent], resp.
    [UnknownClientMeta]); the placeholder's own decode leaves the
    cursor where it was, and the cursor ends behind the whole
    envelope: the declared bytes that follow [d] are skipped. *)
Theorem unknown_discriminator_decodes (K : Types_h) (d sv cv : Z)
    (remaining : list byte) :
  is_u32 d -> is_u8 sv -> 0 <= cv <= 1 ->
  fits_u32 (le_bytes 4 d ++ remaining) ->
  (~ In d event_catalog ->
   forall e0, reads (EventEntry.decode e0)
                    (envelope sv cv (le_bytes 4 d ++ remaining))
                    (EventEntry.make (Unknown UnknownEvent.default))) /\
  (~ In d client_meta_catalog ->
   forall c0, reads (ClientData.decode c0)
                    (envelope sv cv (le_bytes 4 d ++ remaining))
                    (ClientData.make (UnknownClient UnknownClientMeta.default))) /\
  (forall version u bl off, UnknownEvent.decode version u bl off = Ok (u, off)) /\
  (forall version u bl off, UnknownClientMeta.decode version u bl off = Ok (u, off)).
Proof.
  intros Hd Hsv Hcv Hfit.
  assert (Hcv8 : is_u8 cv) by (unfold is_u8; lia).
  repeat split.
  - intros Hout e0. now apply decode_unknown_event_reads.
  - intros Hout c0 pre post. rewrite ClientData_decode_enveloped.
    apply enveloped_reads; try assumption; try lia.
    unfold client_body.
    rewrite <- (app_nil_r (le_bytes 4 d)).
    eapply reads_bind; [apply reads_u32; exact Hd|].
    cbv beta. rewrite client_select_payload_unknown by exact Hout.
    cbn [ClientMetaVisitors.DecodeVisitor]. unfold UnknownClientMeta.decode.
    apply (reads_bind_ret _ ClientData.make).
    apply (reads_bind_ret _ UnknownClient). apply reads_ret.
Qed.

Lemma unknown_discriminator_decodes_witness :
  let e0 := EventEntry.make (AioFlush AioFlushEvent.default) in
  let c0 := ClientData.make (CliClient CliClientMeta.default) in
  @EventEntry.decode journal_types e0
    (envelope 1 1 (le_bytes 4 9999 ++ ["a"; "b"; "c"]%byte)) 0%nat
  = Ok (EventEntry.make (Unknown UnknownEvent.default), 13%nat) /\
  @ClientData.decode journal_types c0
    (envelope 1 1 (le_bytes 4 9999 ++ ["a"; "b"; "c"]%byte)) 0%nat
  = Ok (ClientData.make (UnknownClient UnknownClientMeta.default), 13%nat).
Proof.
  cbv zeta.
  set (e0 := EventEntry.make (AioFlush AioFlushEvent.default)).
  set (c0 := ClientData.make (CliClient CliClientMeta.default)).
  assert (H32 : is_u32 9999) by (unfold is_u32; lia).
  assert (H8 : is_u8 1) by (unfold is_u8; lia).
  assert (Hc : 0 <= 1 <= 1) by lia.
  assert (Hf : fits_u32 (le_bytes 4 9999 ++ ["a"; "b"; "c"]%byte))
    by (vm_compute; reflexivity).
  destruct (unknown_discriminator_decodes journal_types 9999 1 1
              ["a"; "b"; "c"]%byte H32 H8 Hc Hf) as (He & Hcl & _).
  split.
  - apply (reads_whole _ _ _ (He ltac:(cbn; lia) e0)).
  - apply (reads_whole _ _ _ (Hcl ltac:(cbn; lia) c0)).
Defined.

(** C3.  Encoding a placeholder fails at once with the fatal
    assertion: [UnknownEvent::encode] and [UnknownClientMeta::encode]
    stop at [assert(false)] having appended nothing, so the call of
    [EventEntry::encode] or [ClientData::encode] stops there too, and
    the buffer it leaves holds only the header with its unpatched
    length and the tag: no placeholder payload byte follows. *)
Theorem placeholder_encode_aborts (K : Types_h) (bl : bufferlist)
    (u : UnknownEvent.t) (uc : UnknownClientMeta.t) :
  UnknownEvent.encode u bl = Aborted bl /\
  UnknownClientMeta.encode uc bl = Aborted bl /\
  EventEntry.encode (EventEntry.make (Unknown u)) bl
    = Aborted (bl ++ header 1 1 0 ++ le_bytes 4 UnknownEvent_TYPE) /\
  ClientData.encode (ClientData.make (UnknownClient uc)) bl
    = Aborted (bl ++ header 1 1 0 ++ le_bytes 4 UnknownClientMeta_TYPE).
Proof.
  split; [reflexivity|]. split; [reflexivity|]. split.
  - apply EventEntry_encode_placeholder.
  - apply ClientData_encode_placeholder.
Qed.

(** C4.  Version floor.  Wherever an envelope starts in a buffer, if
    the second byte of its header, the minimum compatible version, is
    above 1, then [EventEntry::decode] and [ClientData::decode] throw
    the incompatible-version error; the bytes after these two, the
    length and the payload, play no part. *)
Theorem version_floor (K : Types_h) (e0 : EventEntry.t) (c0 : ClientData.t)
    (pre rest : list byte) (struct_v struct_compat : byte) :
  1 < Z_of_byte struct_compat ->
  EventEntry.decode e0 (pre ++ struct_v :: struct_compat :: rest) (length pre)
    = Throw (malformed_input_oldversion 1 (Z_of_byte struct_compat)) /\
  ClientData.decode c0 (pre ++ struct_v :: struct_compat :: rest) (length pre)
    = Throw (malformed_input_oldversion 1 (Z_of_byte struct_compat)).
Proof.
  intros Hc.
  assert (Hs : DECODE_START 1 (pre ++ struct_v :: struct_compat :: rest)
                 (length pre)
               = Throw (malformed_input_oldversion 1 (Z_of_byte struct_compat))).
  { change (pre ++ struct_v :: struct_compat :: rest)
      with (pre ++ [struct_v] ++ [struct_compat] ++ rest).
    rewrite <- (le_bytes_1_byte struct_v), <- (le_bytes_1_byte struct_compat).
    apply DECODE_START_oldversion; auto using Z_of_byte_u8. }
  split.
  - rewrite EventEntry_decode_enveloped. unfold enveloped, bind.
    now rewrite Hs.
  - rewrite ClientData_decode_enveloped. unfold enveloped, bind.
    now rewrite Hs.
Qed.

Lemma version_floor_witness :
  let e0 := EventEntry.make (AioFlush AioFlushEvent.default) in
  let c0 := ClientData.make (CliClient CliClientMeta.default) in
  1 < Z_of_byte "002" /\
  @EventEntry.decode journal_types e0 ["001"; "002"; "z"]%byte 0%nat
    = Throw (malformed_input_oldversion 1 2) /\
  @ClientData.decode journal_types c0 ["001"; "002"; "z"]%byte 0%nat
    = Throw (malformed_input_oldversion 1 2).
Proof.
  cbv zeta.
  set (e0 := EventEntry.make (AioFlush AioFlushEvent.default)).
  set (c0 := ClientData.make (CliClient CliClientMeta.default)).
  assert (H : 1 < Z_of_byte "002") by (vm_compute; reflexivity).
  split; [exact H|].
  exact (version_floor journal_types e0 c0 [] ["z"%byte] "001"%byte "002"%byte H).
Defined.



(** C6, as stated, fails for [TagData]: the second fixture of
    [TagData::generate_test_instances] is encoded in 50 bytes that
    start with the length and the text of [cluster_id]; read as a
    header they would declare 1818427392 bytes, not the 44 that
    follow. *)
Lemma tag_data_encode_has_no_envelope :
  let d := TagData.make "cluster_id" 123 "image_id" 0 0 in
  In d TagData.generate_test_instances /\
  TagData.encode d [] = Done (bytes_of (TagData.encode d)) /\
  firstn 6 (bytes_of (TagData.encode d))
    = ["010"; "000"; "000"; "000"; "c"; "l"]%byte /\
  length (bytes_of (TagData.encode d)) = 50%nat /\
  ~ has_envelope_format (bytes_of (TagData.encode d)).
Proof.
  cbv zeta. split; [right; left; reflexivity|].
  split; [reflexivity|]. split; [reflexivity|]. split; [reflexivity|].
  intros H. apply envelope_format_length in H.
  vm_compute in H. discriminate H.
Qed.

(** C6, amended.  [EventEntry::encode] and [ClientData::encode] of a
    value that is no placeholder append the header: struct version 1,
    minimum compatible version 1 and the u32 count of the bytes that
    follow it; then the u32 discriminator of the variant held, then
    the variant's payload.  [TagData::encode] appends the five fields
    of the record and nothing else: no header, no discriminator. *)
Theorem encode_wire_format (K : Types_h) :
  (forall e,
     is_placeholder (EventEntry.event e) = false ->
     let payload := bytes_of (EventVisitors.encode_payload (EventEntry.event e)) in
     writes (EventEntry.encode e)
       (le_bytes 1 1 ++ le_bytes 1 1
          ++ le_bytes 4 (Z.of_nat (4 + length payload))
          ++ le_bytes 4 (EventEntry.get_event_type e) ++ payload)) /\
  (forall c,
     is_client_placeholder (ClientData.client_meta c) = false ->
     let payload :=
       bytes_of (ClientMetaVisitors.encode_payload (ClientData.client_meta c)) in
     writes (ClientData.encode c)
       (le_bytes 1 1 ++ le_bytes 1 1
          ++ le_bytes 4 (Z.of_nat (4 + length payload))
          ++ le_bytes 4 (ClientData.get_client_meta_type c) ++ payload)) /\
  (forall d,
     writes (TagData.encode d)
       (bytes_of (encode_string (TagData.cluster_id d))
          ++ le_bytes 8 (TagData.pool_id d)
          ++ bytes_of (encode_string (TagData.image_id d))
          ++ le_bytes 8 (TagData.predecessor_tag_tid d)
          ++ le_bytes 8 (TagData.predecessor_entry_tid d))).
Proof.
  split; [|split].
  - intros e Hp payload bl.
    rewrite (EventEntry_encode_writes e Hp bl).
    unfold envelope, header, event_content, EventEntry.get_event_type.
    fold payload. rewrite length_app, le_bytes_length.
    now rewrite <- !app_assoc.
  - intros c Hp payload bl.
    rewrite (ClientData_encode_writes c Hp bl).
    unfold envelope, header, client_content, ClientData.get_client_meta_type.
    fold payload. rewrite length_app, le_bytes_length.
    now rewrite <- !app_assoc.
  - apply TagData_writes.
Qed.

(** C7, as stated, fails.  With the catalog numbered from 0 and the
    placeholder's [TYPE] being [static_cast<EventType>(-1)], decoding
    the ten bytes of an envelope whose discriminator is 9999 yields
    the placeholder, but [get_event_type] then returns 4294967295, the
    constant [UnknownEvent::TYPE], and the dump holds the string
    "Unknown (4294967295)": the value 9999 is not kept anywhere.
    Under any numbering the type of the placeholder is that one
    constant, whichever discriminator was read. *)
Lemma unknown_event_type_not_9999 :
  let bl := envelope 1 1 (le_bytes 4 9999) in
  let e := EventEntry.make (Unknown UnknownEvent.default) in
  @EventEntry.decode journal_types
     (EventEntry.make (AioFlush AioFlushEvent.default)) bl 0%nat
    = Ok (e, 10%nat) /\
  (forall K : Types_h, @EventEntry.get_event_type K e = @UnknownEvent_TYPE K) /\
  @EventEntry.get_event_type journal_types e = 4294967295 /\
  @EventEntry.get_event_type journal_types e <> 9999 /\
  @EventEntry.dump journal_types e []
    = [dump_string "event_type" "Unknown (4294967295)"] /\
  @EventEntry.dump journal_types e []
    <> [dump_string "event_type" "Unknown (9999)"].
Proof.
  cbv zeta. split; [vm_compute; reflexivity|].
  split; [intros K; reflexivity|].
  split; [reflexivity|]. split; [cbn; lia|].
  split; [vm_compute; reflexivity|].
  vm_compute. discriminate.
Qed.

(** C7, amended.  After decoding an [EventEntry] whose discriminator
    is 9999, a value outside the catalog, the entry holds the
    placeholder; [get_event_type] returns the placeholder's constant
    [UnknownEvent::TYPE], whatever discriminator was read, and the
    dump renders that constant as "Unknown (<UnknownEvent::TYPE>)".
    The string "Unknown (9999)" is what stringifying the event type
    9999 itself gives. *)
Theorem unknown_event_type_is_constant (K : Types_h) (sv cv : Z)
    (remaining : list byte) (e0 : EventEntry.t) :
  is_u8 sv -> 0 <= cv <= 1 -> fits_u32 (le_bytes 4 9999 ++ remaining) ->
  ~ In 9999 event_catalog -> ~ In UnknownEvent_TYPE event_catalog ->
  exists e,
    reads (EventEntry.decode e0) (envelope sv cv (le_bytes 4 9999 ++ remaining)) e /\
    EventEntry.event e = Unknown UnknownEvent.default /\
    EventEntry.get_event_type e = UnknownEvent_TYPE /\
    EventEntry.dump e []
      = [dump_string "event_type"
           ("Unknown (" ++ decimal UnknownEvent_TYPE ++ ")")%string] /\
    stringify_EventType 9999 = "Unknown (9999)"%string.
Proof.
  intros Hsv Hcv Hfit H9999 Hunk.
  exists (EventEntry.make (Unknown UnknownEvent.default)).
  assert (H32 : is_u32 9999) by (unfold is_u32; lia).
  pose proof (decode_unknown_event_reads K 9999 sv cv remaining e0
                H32 Hsv Hcv Hfit H9999) as Hdec.
  split; [exact Hdec|]. split; [reflexivity|]. split; [reflexivity|].
  split.
  - unfold EventEntry.dump, EventVisitors.DumpVisitor.
    cbn [EventEntry.event EventVisitors.GetTypeVisitor
         EventVisitors.dump_payload UnknownEvent.dump app].
    now rewrite stringify_EventType_unknown by exact Hunk.
  - now rewrite stringify_EventType_unknown by exact H9999.
Qed.

Lemma unknown_event_type_is_constant_witness :
  exists e,
    @EventEntry.decode journal_types
       (EventEntry.make (AioFlush AioFlushEvent.default))
       (envelope 1 1 (le_bytes 4 9999)) 0%nat = Ok (e, 10%nat) /\
    @EventEntry.get_event_type journal_types e = 4294967295.
Proof.
  assert (H8 : is_u8 1) by (unfold is_u8; lia).
  assert (Hc : 0 <= 1 <= 1) by lia.
  assert (Hf : fits_u32 (le_bytes 4 9999 ++ [])) by (vm_compute; reflexivity).
  assert (H1 : ~ In 9999 (@event_catalog journal_types)) by (cbn; lia).
  assert (H2 : ~ In (@UnknownEvent_TYPE journal_types) (@event_catalog journal_types))
    by (cbn; lia).
  destruct (unknown_event_type_is_constant journal_types 1 1 []
              (EventEntry.make (AioFlush AioFlushEvent.default))
              H8 Hc Hf H1 H2) as (e & Hr & _ & Ht & _).
  exists e. split; [|exact Ht].
  apply reads_whole in Hr. rewrite app_nil_r in Hr. exact Hr.
Defined.

(** C8.  [OpFinishEvent::encode] appends the operation id twice, once
    through [OpEventBase::encode] and once itself, and then the
    result: twenty bytes.  [OpFinishEvent::decode] reads two operation
    ids and a result in that order (of two different ids the object
    keeps the second).  Decoding the twenty bytes of an event gives
    the event back, and encoding what was decoded writes the same
    twenty bytes again, both occurrences of the id included. *)
Theorem op_finish_op_tid_twice (version : Z) (e0 e : OpFinishEvent.t) :
  valid_OpEventBase (OpFinishEvent.base e) -> is_i32 (OpFinishEvent.r e) ->
  let tid := le_bytes 8 (OpFinishEvent.op_tid e) in
  let wire := tid ++ tid ++ le_bytes 4 (OpFinishEvent.r e) in
  writes (OpFinishEvent.encode e) wire /\
  length wire = 20%nat /\
  (forall t1 t2 r,
     is_u64 t1 -> is_u64 t2 -> is_i32 r ->
     reads (OpFinishEvent.decode version e0)
           (le_bytes 8 t1 ++ le_bytes 8 t2 ++ le_bytes 4 r)
           (OpFinishEvent.make (OpEventBase.make t2) r)) /\
  (exists e',
     reads (OpFinishEvent.decode version e0) wire e' /\
     e' = e /\
     writes (OpFinishEvent.encode e') wire).
Proof.
  intros Hb Hr tid wire. subst tid wire.
  split; [apply OpFinishEvent_writes|].
  split; [reflexivity|].
  split.
  - intros t1 t2 r H1 H2 H3. now apply OpFinishEvent_reads_any.
  - exists e. split; [now apply OpFinishEvent_reads|].
    split; [reflexivity | apply OpFinishEvent_writes].
Qed.

(** The fixture [OpFinishEvent(123, -1)]. *)
Lemma op_finish_op_tid_twice_witness :
  let e := OpFinishEvent.make (OpEventBase.make 123) (-1) in
  OpFinishEvent.encode e []
    = Done (le_bytes 8 123 ++ le_bytes 8 123 ++ le_bytes 4 (-1)) /\
  OpFinishEvent.decode 1 OpFinishEvent.default
    (le_bytes 8 123 ++ le_bytes 8 123 ++ le_bytes 4 (-1)) 0%nat
    = Ok (e, 20%nat).
Proof.
  cbv zeta.
  set (e := OpFinishEvent.make (OpEventBase.make 123) (-1)).
  assert (Hb : valid_OpEventBase (OpFinishEvent.base e))
    by (unfold valid_OpEventBase, is_u64; cbn; lia).
  assert (Hr : is_i32 (OpFinishEvent.r e)) by (unfold is_i32; cbn; lia).
  destruct (op_finish_op_tid_twice 1 OpFinishEvent.default e Hb Hr)
    as (Hw & _ & _ & e' & Hrd & -> & _).
  split.
  - exact (Hw []).
  - exact (reads_whole _ _ _ Hrd).
Defined.

(** C10.  No payload decoder looks at its [version] argument: for any
    two versions, [DecodeVisitor] at either envelope, hence the
    [decode] of every variant, gives the same result, value and
    cursor or error, on every buffer and position; in particular
    [AioDiscardEvent::decode] and [MirrorPeerClientMeta::decode].  The
    struct version that an envelope reads from its header and hands to
    its body therefore has no effect: two inputs that differ in the
    struct version byte alone are decoded to the same result.  Of the
    two version bytes only the minimum compatible version, checked in
    [DECODE_START], matters. *)
Theorem payload_decode_ignores_version (K : Types_h) (v1 v2 : Z)
    (bl : bufferlist) (off : nat) :
  (forall ev, EventVisitors.DecodeVisitor v1 ev bl off
              = EventVisitors.DecodeVisitor v2 ev bl off) /\
  (forall cm, ClientMetaVisitors.DecodeVisitor v1 cm bl off
              = ClientMetaVisitors.DecodeVisitor v2 cm bl off) /\
  (forall e, AioDiscardEvent.decode v1 e bl off = AioDiscardEvent.decode v2 e bl off) /\
  (forall m, MirrorPeerClientMeta.decode v1 m bl off
             = MirrorPeerClientMeta.decode v2 m bl off) /\
  event_body v1 bl off = event_body v2 bl off /\
  client_body v1 bl off = client_body v2 bl off /\
  (forall e0 pre rest b1 b2,
     EventEntry.decode e0 (pre ++ b1 :: rest) (length pre)
     = EventEntry.decode e0 (pre ++ b2 :: rest) (length pre)) /\
  (forall c0 pre rest b1 b2,
     ClientData.decode c0 (pre ++ b1 :: rest) (length pre)
     = ClientData.decode c0 (pre ++ b2 :: rest) (length pre)).
Proof.
  split; [intros ev; destruct ev; reflexivity|].
  split; [intros cm; destruct cm; reflexivity|].
  split; [intros e; reflexivity|].
  split; [intros m; reflexivity|].
  split; [apply event_body_version|].
  split; [apply client_body_version|].
  split.
  - intros e0 pre rest b1 b2. rewrite !EventEntry_decode_enveloped.
    apply enveloped_struct_v_byte.
    + apply event_body_version.
    + intros sv. apply event_body_forward_only.
    + intros sv. apply event_body_forward_only.
  - intros c0 pre rest b1 b2. rewrite !ClientData_decode_enveloped.
    apply enveloped_struct_v_byte.
    + apply client_body_version.
    + intros sv. apply client_body_forward_only.
    + intros sv. apply client_body_forward_only.
Qed.

(** C9, as stated, fails.  The data model lists [data] among the
    fields of an [AioWriteEvent], and [AioWriteEvent::dump] emits the
    offset and the length only: for the fixture
    [AioWriteEvent(123, 456, bl)] no entry carries the 32 bytes.  The
    dumps of [MirrorPeerClientMeta] and [TagData] pass their strings
    through [c_str()]; of "a", NUL, "b" they emit "a". *)
Lemma aio_write_dump_omits_data :
  let bl := repeat "1"%byte 32 in
  let e := AioWriteEvent.make 123 456 bl in
  let s := String "a" (String zero (String "b" EmptyString)) in
  let m := MirrorPeerClientMeta.make s 0 "" in
  In (EventEntry.make (AioWrite e))
     (@EventEntry.generate_test_instances journal_types) /\
  In ("data"%string, blob_field bl) (data_model_Event (AioWrite e)) /\
  AioWriteEvent.dump e []
    = [dump_unsigned "offset" 123; dump_unsigned "length" 456] /\
  ~ emits (AioWriteEvent.dump e []) (blob_field bl) /\
  MirrorPeerClientMeta.dump m []
    = [dump_string "cluster_id" "a"; dump_int "pool_id" 0;
       dump_string "image_id" ""] /\
  ~ emits (MirrorPeerClientMeta.dump m []) (string_field s).
Proof.
  cbv zeta.
  split; [cbn; tauto|]. split; [cbn; tauto|]. split; [reflexivity|].
  split; [|split; [reflexivity|]].
  - intros (d & Hin & Hc). cbn in Hin.
    destruct Hin as [<-|[<-|[]]]; exact Hc.
  - intros (d & Hin & Hc). cbn in Hin.
    destruct Hin as [<-|[<-|[<-|[]]]]; cbn in Hc;
      try contradiction; discriminate Hc.
Qed.

Ltac field_by_field :=
  repeat first
    [ apply emitted_none
    | apply emitted_here;
      [ cbn; split; first [reflexivity | apply c_str_nul_free] | ]
    | apply emitted_later ].

(** C9, amended.  Every field that the data model lists for a value,
    other than the [data] blob of an [AioWriteEvent], is emitted by
    the value's dump as a named value: by an entry of its own, under
    the field's name ([snap_id] and [snap_name] of a [SnapRenameEvent]
    under "src_snap_id" and "dest_snap_name"), of the field's kind
    (unsigned integer, signed integer or string), with the field's
    value, and in the order of the data model; for the string fields
    of [MirrorPeerClientMeta] and [TagData] the value is the field's
    when the string holds no NUL character.  The two operation ids of
    an [OpFinishEvent] are two entries.  Nothing else is appended, but
    by the dump of a [SnapRenameEvent], which has one entry more.  The
    dumps mutate nothing but the formatter, which they extend: what
    it held stays in place, what is appended is the same whatever it
    held, and a second dump of the value appends the same entries
    again.  The dumps are [const] member functions, embedded as
    functions of the value that return the formatter alone. *)
Theorem dump_emits_fields :
  (forall ev f,
     emitted_in_order false (dump_key ev) (dumpable (data_model_Event ev))
       (EventVisitors.dump_payload ev []) /\
     ((forall e, ev <> SnapRename e) ->
      length (EventVisitors.dump_payload ev [])
      = length (dumpable (data_model_Event ev))) /\
     ((exists e, ev = SnapRename e) ->
      length (EventVisitors.dump_payload ev [])
      = S (length (dumpable (data_model_Event ev)))) /\
     EventVisitors.dump_payload ev f = f ++ EventVisitors.dump_payload ev [] /\
     EventVisitors.dump_payload ev (EventVisitors.dump_payload ev f)
     = f ++ EventVisitors.dump_payload ev []
         ++ EventVisitors.dump_payload ev []) /\
  (forall cm f,
     emitted_in_order true (fun name => name)
       (dumpable (data_model_ClientMeta cm))
       (ClientMetaVisitors.dump_payload cm []) /\
     length (ClientMetaVisitors.dump_payload cm [])
     = length (dumpable (data_model_ClientMeta cm)) /\
     ClientMetaVisitors.dump_payload cm f
     = f ++ ClientMetaVisitors.dump_payload cm [] /\
     ClientMetaVisitors.dump_payload cm (ClientMetaVisitors.dump_payload cm f)
     = f ++ ClientMetaVisitors.dump_payload cm []
         ++ ClientMetaVisitors.dump_payload cm []) /\
  (forall d f,
     emitted_in_order true (fun name => name)
       (dumpable (data_model_TagData d)) (TagData.dump d []) /\
     length (TagData.dump d []) = length (dumpable (data_model_TagData d)) /\
     TagData.dump d f = f ++ TagData.dump d [] /\
     TagData.dump d (TagData.dump d f)
     = f ++ TagData.dump d [] ++ TagData.dump d []).
Proof.
  split; [|split].
  - intros ev f. repeat match goal with |- _ /\ _ => split end.
    + destruct ev as [e|e|e|e|e|e|e|e|e|e|e|e|e|e]; cbn; field_by_field.
    + intros Hnot.
      destruct ev as [e|e|e|e|e|e|e|e|e|e|e|e|e|e]; try reflexivity.
      exfalso. now apply (Hnot e).
    + intros [e ->]. reflexivity.
    + apply event_dump_payload_app.
    + rewrite event_dump_payload_app, (event_dump_payload_app ev f).
      now rewrite <- app_assoc.
  - intros cm f. repeat match goal with |- _ /\ _ => split end.
    + destruct cm as [m|m|m|m]; cbn; field_by_field.
    + destruct cm; reflexivity.
    + apply client_dump_payload_app.
    + rewrite client_dump_payload_app, (client_dump_payload_app cm f).
      now rewrite <- app_assoc.
  - intros d f. repeat match goal with |- _ /\ _ => split end.
    + cbn. field_by_field.
    + reflexivity.
    + reflexivity.
    + unfold TagData.dump. now rewrite <- app_assoc.
Qed.

(* ================================================================== *)
(** ** Further properties *)

(** X1.  Round trip of every event entry: for every numbering of the
    catalog that C++ accepts and every [EventEntry] that holds no
    placeholder, whose members are values of their C++ types and whose
    content is shorter than 2^32 bytes, encoding into an empty buffer
    completes, and decoding the bytes into any object yields the entry
    with every byte consumed. *)
Theorem event_entry_round_trip (K : Types_h) (HK : Types_h_ok K)
    (e0 e : EventEntry.t) :
  is_placeholder (EventEntry.event e) = false ->
  valid_Event (EventEntry.event e) ->
  fits_u32 (event_content (EventEntry.event e)) ->
  exists bl, EventEntry.encode e [] = Done bl /\
             EventEntry.decode e0 bl 0%nat = Ok (e, length bl).
Proof.
  intros Hp Hv Hfit.
  apply round_trip_whole
    with (bs := envelope 1 1 (event_content (EventEntry.event e))).
  - now apply EventEntry_encode_writes.
  - now apply (EventEntry_round_trip HK).
Qed.

Lemma event_entry_round_trip_witness :
  let e := EventEntry.make
             (SnapRename (SnapRenameEvent.make (EventEntry.snap_event 456 "snap") 1)) in
  exists bl, @EventEntry.encode journal_types e [] = Done bl /\
             @EventEntry.decode journal_types
               (EventEntry.make (AioFlush AioFlushEvent.default)) bl 0%nat
             = Ok (e, length bl).
Proof.
  cbv zeta.
  apply (event_entry_round_trip journal_types journal_types_ok).
  - reflexivity.
  - literal_value.
  - literal_fits.
Defined.

(** X2.  Round trip of every client record, under the same
    conditions. *)
Theorem client_data_round_trip (K : Types_h) (HK : Types_h_ok K)
    (c0 c : ClientData.t) :
  is_client_placeholder (ClientData.client_meta c) = false ->
  valid_ClientMeta (ClientData.client_meta c) ->
  fits_u32 (client_content (ClientData.client_meta c)) ->
  exists bl, ClientData.encode c [] = Done bl /\
             ClientData.decode c0 bl 0%nat = Ok (c, length bl).
Proof.
  intros Hp Hv Hfit.
  apply round_trip_whole
    with (bs := envelope 1 1 (client_content (ClientData.client_meta c))).
  - now apply ClientData_encode_writes.
  - now apply (ClientData_round_trip HK).
Qed.

Lemma client_data_round_trip_witness :
  let c := ClientData.make
             (MirrorPeerClient (MirrorPeerClientMeta.make "cluster_id" 123 "image_id")) in
  exists bl, @ClientData.encode journal_types c [] = Done bl /\
             @ClientData.decode journal_types
               (ClientData.make (CliClient CliClientMeta.default)) bl 0%nat
             = Ok (c, length bl).
Proof.
  cbv zeta.
  apply (client_data_round_trip journal_types journal_types_ok).
  - reflexivity.
  - literal_value.
  - literal_fits.
Defined.

(** X3.  Round trip of every tag record whose members are values of
    their C++ types and whose strings are shorter than 2^32 bytes. *)
Theorem tag_data_round_trip (d0 d : TagData.t) :
  valid_TagData d ->
  exists bl, TagData.encode d [] = Done bl /\
             TagData.decode d0 bl 0%nat = Ok (d, length bl).
Proof.
  intros Hv.
  eapply round_trip_whole; [apply TagData_writes|].
  now apply TagData_reads.
Qed.

Lemma tag_data_round_trip_witness :
  let d := TagData.make "cluster_id" 123 "image_id" 7 9 in
  exists bl, TagData.encode d [] = Done bl /\
             TagData.decode TagData.default bl 0%nat = Ok (d, length bl).
Proof.
  cbv zeta. apply tag_data_round_trip.
  unfold valid_TagData. literal_value.
Defined.

(** X4.  The mnemonic names: under every numbering that C++ accepts,
    [operator<<] writes for each enumerator the name of its case. *)
Theorem type_mnemonics (K : Types_h) (HK : Types_h_ok K) :
  map stringify_EventType event_catalog
    = [ "AioDiscard"; "AioWrite"; "AioFlush"; "OpFinish"; "SnapCreate";
        "SnapRemove"; "SnapRename"; "SnapProtect"; "SnapUnprotect";
        "SnapRollback"; "Rename"; "Resize"; "Flatten" ]%string /\
  map stringify_ClientMetaType client_meta_catalog
    = [ "Master Image"; "Mirror Peer"; "CLI Tool" ]%string.
Proof.
  split.
  - pose proof (event_labels_distinct K HK) as Hnd.
    unfold event_catalog in *. distinct_labels Hnd.
    cbn [map]. unfold stringify_EventType.
    repeat match goal with |- _ :: _ = _ :: _ => f_equal end; switch_cases.
  - pose proof (client_meta_labels_distinct K HK) as Hnd.
    unfold client_meta_catalog in *. distinct_labels Hnd.
    cbn [map]. unfold stringify_ClientMetaType.
    repeat match goal with |- _ :: _ = _ :: _ => f_equal end; switch_cases.
Qed.

Lemma type_mnemonics_witness :
  @stringify_EventType journal_types 6 = "SnapRename"%string /\
  @stringify_ClientMetaType journal_types 1 = "Mirror Peer"%string.
Proof.
  destruct (type_mnemonics journal_types journal_types_ok) as [He Hc].
  split.
  - exact (f_equal (fun l => nth 6 l ""%string) He).
  - exact (f_equal (fun l => nth 1 l ""%string) Hc).
Defined.


(* ================================================================== *)
(** ** Lemmas: what a successful decode has consumed *)

Lemma took_nil (bl : bufferlist) (off : nat) : took bl off off [].
Proof. split; [cbn; lia | reflexivity]. Qed.

Lemma took_app (bl : bufferlist) (off mid off' : nat) (b1 b2 : list byte) :
  took bl off mid b1 -> took bl mid off' b2 -> took bl off off' (b1 ++ b2).
Proof.
  intros [H1 E1] [H2 E2]. split.
  - rewrite length_app. lia.
  - rewrite E1, E2. now rewrite app_assoc.
Qed.

Lemma took_bound (bl : bufferlist) (off off' : nat) (bs : list byte) :
  took bl off off' bs -> (off <= length bl)%nat -> (off' <= length bl)%nat.
Proof.
  intros [H E] Hle. apply (f_equal (@length byte)) in E.
  rewrite length_app, !length_skipn in E. lia.
Qed.

Lemma took_firstn (bl : bufferlist) (off off' : nat) (bs : list byte) :
  took bl off off' bs -> firstn (length bs) (skipn off bl) = bs.
Proof.
  intros [_ E]. rewrite E.
  rewrite firstn_app, firstn_all, Nat.sub_diag. cbn. apply app_nil_r.
Qed.

(** Two byte strings that start at the same place and of which one is
    no longer than the other: the shorter is the front of the longer. *)
Lemma took_prefix (bl : bufferlist) (off o1 o2 : nat) (b1 b2 : list byte) :
  took bl off o1 b1 -> took bl off o2 b2 -> (o1 <= o2)%nat ->
  exists rest, b2 = b1 ++ rest.
Proof.
  intros [H1 E1] [H2 E2] Hle.
  exists (skipn (length b1) b2).
  assert (Hf : firstn (length b1) b2 = b1).
  { pose proof (f_equal (firstn (length b1)) E1) as F1.
    rewrite E2 in F1 at 1.
    rewrite !firstn_app in F1. rewrite firstn_all, Nat.sub_diag in F1.
    replace (length b1 - length b2)%nat with 0%nat in F1 by lia.
    cbn [firstn] in F1. now rewrite !app_nil_r in F1. }
  rewrite <- Hf at 1. symmetry. apply firstn_skipn.
Qed.

Lemma bind_Ok {A B} (d : decoder A) (k : A -> decoder B)
    (bl : bufferlist) (off off' : nat) (b : B) :
  bind d k bl off = Ok (b, off') ->
  exists a mid, d bl off = Ok (a, mid) /\ k a bl mid = Ok (b, off').
Proof.
  unfold bind. destruct (d bl off) as [[a mid]|e]; [|discriminate].
  intros H. now exists a, mid.
Qed.

Lemma ret_Ok {A} (a b : A) (bl : bufferlist) (off off' : nat) :
  ret a bl off = Ok (b, off') -> b = a /\ off' = off.
Proof. unfold ret. intros H. injection H as <- <-. now split. Qed.

Lemma copy_Ok (n : nat) (bl : bufferlist) (off off' : nat) (bs : list byte) :
  copy n bl off = Ok (bs, off') -> length bs = n /\ took bl off off' bs.
Proof.
  unfold copy. destruct (Nat.leb_spec (off + n) (length bl)) as [Hle|_];
    [|discriminate].
  intros H. injection H as <- <-.
  assert (Hl : length (firstn n (skipn off bl)) = n).
  { rewrite length_firstn, length_skipn. lia. }
  split; [exact Hl|]. split.
  - now rewrite Hl.
  - rewrite <- (firstn_skipn n (skipn off bl)) at 1.
    now rewrite skipn_skipn, (Nat.add_comm n off).
Qed.

Lemma le_bytes_mod (n : nat) (v : Z) :
  le_bytes n (v mod 256 ^ Z.of_nat n) = le_bytes n v.
Proof.
  rewrite <- (le_value_le_bytes n v).
  rewrite <- (le_bytes_length n v) at 1. apply le_bytes_le_value.
Qed.

Lemma fixed_Ok (n : nat) (bl : bufferlist) (off off' : nat) (v : Z) :
  (bs <- copy n ;; ret (le_value bs))%dec bl off = Ok (v, off') ->
  0 <= v < 256 ^ Z.of_nat n /\ took bl off off' (le_bytes n v).
Proof.
  intros H. apply bind_Ok in H. destruct H as (bs & mid & Hc & Hr).
  apply ret_Ok in Hr. destruct Hr as [-> ->].
  apply copy_Ok in Hc. destruct Hc as [<- Ht].
  split; [apply le_value_range|]. now rewrite le_bytes_le_value.
Qed.

Lemma decode_u8_Ok (bl : bufferlist) (off off' : nat) (v : Z) :
  decode_u8 bl off = Ok (v, off') -> is_u8 v /\ took bl off off' (le_bytes 1 v).
Proof. apply (fixed_Ok 1). Qed.

Lemma decode_u32_Ok (bl : bufferlist) (off off' : nat) (v : Z) :
  decode_u32 bl off = Ok (v, off') -> is_u32 v /\ took bl off off' (le_bytes 4 v).
Proof. apply (fixed_Ok 4). Qed.

Lemma decode_u64_Ok (bl : bufferlist) (off off' : nat) (v : Z) :
  decode_u64 bl off = Ok (v, off') -> is_u64 v /\ took bl off off' (le_bytes 8 v).
Proof. apply (fixed_Ok 8). Qed.

Lemma to_signed_range (n : nat) (u : Z) :
  (0 < n)%nat -> 0 <= u < 256 ^ Z.of_nat n ->
  let w := 8 * Z.of_nat n in
  - 2 ^ (w - 1) <= to_signed w u < 2 ^ (w - 1) /\
  to_signed w u mod 256 ^ Z.of_nat n = u.
Proof.
  intros Hn Hu w.
  assert (Ew : 256 ^ Z.of_nat n = 2 ^ w).
  { unfold w. rewrite Z.pow_mul_r by lia. reflexivity. }
  assert (E2 : 2 ^ w = 2 * 2 ^ (w - 1)).
  { replace w with (Z.succ (w - 1)) at 1 by lia. apply Z.pow_succ_r. lia. }
  rewrite Ew in *. unfold to_signed.
  destruct (Z.ltb_spec u (2 ^ (w - 1))) as [Hlt|Hge].
  - split; [lia|]. apply Z.mod_small. lia.
  - split; [lia|]. symmetry. apply Z.mod_unique with (q := -1); lia.
Qed.

Lemma signed_Ok (n : nat) (bl : bufferlist) (off off' : nat) (v : Z) :
  (0 < n)%nat ->
  (bs <- copy n ;; ret (to_signed (8 * Z.of_nat n) (le_value bs)))%dec bl off
    = Ok (v, off') ->
  - 2 ^ (8 * Z.of_nat n - 1) <= v < 2 ^ (8 * Z.of_nat n - 1) /\
  took bl off off' (le_bytes n v).
Proof.
  intros Hn H. apply bind_Ok in H. destruct H as (bs & mid & Hc & Hr).
  apply ret_Ok in Hr. destruct Hr as [-> ->].
  apply copy_Ok in Hc. destruct Hc as [<- Ht].
  destruct (to_signed_range (length bs) (le_value bs) Hn (le_value_range bs))
    as [Hrange Hmod].
  split; [exact Hrange|].
  rewrite <- le_bytes_mod, Hmod, le_bytes_le_value. exact Ht.
Qed.

Lemma decode_i32_Ok (bl : bufferlist) (off off' : nat) (v : Z) :
  decode_i32 bl off = Ok (v, off') -> is_i32 v /\ took bl off off' (le_bytes 4 v).
Proof. apply (signed_Ok 4). lia. Qed.

Lemma decode_i64_Ok (bl : bufferlist) (off off' : nat) (v : Z) :
  decode_i64 bl off = Ok (v, off') -> is_i64 v /\ took bl off off' (le_bytes 8 v).
Proof. apply (signed_Ok 8). lia. Qed.

Lemma decode_bufferlist_Ok (bl : bufferlist) (off off' : nat) (s : bufferlist) :
  decode_bufferlist bl off = Ok (s, off') ->
  fits_u32 s /\ took bl off off' (le_bytes 4 (Z.of_nat (length s)) ++ s).
Proof.
  intros H. apply bind_Ok in H. destruct H as (len & mid & Hl & Hc).
  apply decode_u32_Ok in Hl. destruct Hl as [Hlen Ht1].
  apply copy_Ok in Hc. destruct Hc as [Hs Ht2].
  assert (E : Z.of_nat (length s) = len) by (unfold is_u32 in Hlen; lia).
  split.
  - unfold fits_u32. unfold is_u32 in Hlen. lia.
  - rewrite E. eapply took_app; eassumption.
Qed.

Lemma decode_string_Ok (bl : bufferlist) (off off' : nat) (s : string) :
  decode_string bl off = Ok (s, off') ->
  valid_string s /\ took bl off off' (bytes_of (encode_string s)).
Proof.
  intros H. apply bind_Ok in H. destruct H as (bs & mid & Hb & Hr).
  apply ret_Ok in Hr. destruct Hr as [-> ->].
  apply decode_bufferlist_Ok in Hb.
  unfold valid_string, encode_string.
  rewrite (writes_bytes_of _ _ (writes_bufferlist _)).
  now rewrite list_byte_of_string_of_list_byte.
Qed.

(** Takes a successful run of a decode function apart, field by
    field. *)
Ltac decode_inv :=
  repeat match goal with
         | H : decode_u8 _ _ = Ok _ |- _ =>
             apply decode_u8_Ok in H; destruct H
         | H : decode_u64 _ _ = Ok _ |- _ =>
             apply decode_u64_Ok in H; destruct H
         | H : decode_u32 _ _ = Ok _ |- _ =>
             apply decode_u32_Ok in H; destruct H
         | H : decode_i32 _ _ = Ok _ |- _ =>
             apply decode_i32_Ok in H; destruct H
         | H : decode_i64 _ _ = Ok _ |- _ =>
             apply decode_i64_Ok in H; destruct H
         | H : decode_string _ _ = Ok _ |- _ =>
             apply decode_string_Ok in H; destruct H
         | H : decode_bufferlist _ _ = Ok _ |- _ =>
             apply decode_bufferlist_Ok in H; destruct H
         | H : ret _ _ _ = Ok _ |- _ =>
             apply ret_Ok in H; destruct H; subst
         | H : bind _ _ _ _ = Ok _ |- _ =>
             let a := fresh "a" in
             let mid := fresh "mid" in
             let Hd := fresh "Hd" in
             apply bind_Ok in H; destruct H as (a & mid & Hd & H)
         end.

(** Reduces the projections of the records, and nothing else. *)
Ltac fields :=
  unfold OpFinishEvent.op_tid;
  cbn [AioDiscardEvent.offset AioDiscardEvent.length AioWriteEvent.offset
       AioWriteEvent.length AioWriteEvent.data OpEventBase.op_tid
       OpFinishEvent.base OpFinishEvent.r SnapEventBase.base
       SnapEventBase.snap_name SnapRenameEvent.base SnapRenameEvent.snap_id
       RenameEvent.base RenameEvent.image_name ResizeEvent.base
       ResizeEvent.size ImageClientMeta.tag_class
       MirrorPeerClientMeta.cluster_id MirrorPeerClientMeta.pool_id
       MirrorPeerClientMeta.image_id TagData.cluster_id TagData.pool_id
       TagData.image_id TagData.predecessor_tag_tid
       TagData.predecessor_entry_tid].

Ltac took_fields :=
  first
    [ apply took_nil
    | eassumption
    | eapply took_app; [eassumption | took_fields] ].

Lemma OpEventBase_decode_Ok (version : Z) (e0 e : OpEventBase.t)
    (bl : bufferlist) (off off' : nat) :
  OpEventBase.decode version e0 bl off = Ok (e, off') ->
  valid_OpEventBase e /\ took bl off off' (le_bytes 8 (OpEventBase.op_tid e)).
Proof.
  unfold OpEventBase.decode. intros H. decode_inv.
  split; assumption.
Qed.

Lemma SnapEventBase_decode_Ok (version : Z) (e0 e : SnapEventBase.t)
    (bl : bufferlist) (off off' : nat) :
  SnapEventBase.decode version e0 bl off = Ok (e, off') ->
  valid_SnapEventBase e /\
  took bl off off'
    (le_bytes 8 (OpEventBase.op_tid (SnapEventBase.base e))
       ++ bytes_of (encode_string (SnapEventBase.snap_name e))).
Proof.
  unfold SnapEventBase.decode. intros H. decode_inv.
  apply OpEventBase_decode_Ok in Hd. destruct Hd as [Hv Ht].
  split; [split; assumption|]. fields. took_fields.
Qed.

(** What a variant's decode has consumed when it succeeds are payload
    bytes of the value it produced, and the value is one of the C++
    types. *)
Lemma DecodeVisitor_Ok {K : Types_h} (version : Z) (ev0 ev : Event)
    (bl : bufferlist) (off off' : nat) :
  EventVisitors.DecodeVisitor version ev0 bl off = Ok (ev, off') ->
  blank ev = blank ev0 /\ valid_Event ev /\
  exists bs, accepted_payload ev bs /\ took bl off off' bs.
Proof.
  intros H.
  destruct ev0 as [e|e|e|e|e|e|e|e|e|e|e|e|e|e];
    cbn [EventVisitors.DecodeVisitor] in H;
    unfold AioDiscardEvent.decode, AioWriteEvent.decode, AioFlushEvent.decode,
      OpFinishEvent.decode, SnapRenameEvent.decode, RenameEvent.decode,
      ResizeEvent.decode, UnknownEvent.decode in H;
    decode_inv;
    repeat match goal with
           | Hs : SnapEventBase.decode _ _ _ _ = Ok _ |- _ =>
               apply SnapEventBase_decode_Ok in Hs; destruct Hs
           | Ho : OpEventBase.decode _ _ _ _ = Ok _ |- _ =>
               apply OpEventBase_decode_Ok in Ho; destruct Ho
           end;
    (split; [reflexivity|]);
    (split; [cbn [valid_Event]; fields; auto|]);
    eexists; (split; [cbn [accepted_payload]; try reflexivity|]);
    cbn [EventVisitors.encode_payload].
  - known_bytes ltac:(apply writes_seq; apply writes_append).
    fields. took_fields.
  - known_bytes ltac:(apply writes_seq; [apply writes_append|];
                      apply writes_seq; [apply writes_append|];
                      apply writes_bufferlist).
    fields. took_fields.
  - known_bytes ltac:(apply writes_skip). took_fields.
  - fields. eexists. split; [|reflexivity].
    match goal with Hv : valid_OpEventBase _ |- _ => exact Hv end.
  - fields. took_fields.
  - known_bytes ltac:(apply SnapEventBase_writes). took_fields.
  - known_bytes ltac:(apply SnapEventBase_writes). took_fields.
  - known_bytes ltac:(apply writes_seq;
                      [apply SnapEventBase_writes | apply writes_append]).
    fields. took_fields.
  - known_bytes ltac:(apply SnapEventBase_writes). took_fields.
  - known_bytes ltac:(apply SnapEventBase_writes). took_fields.
  - known_bytes ltac:(apply SnapEventBase_writes). took_fields.
  - known_bytes ltac:(apply writes_seq;
                      [apply OpEventBase_writes | apply writes_string]).
    fields. took_fields.
  - known_bytes ltac:(apply writes_seq;
                      [apply OpEventBase_writes | apply writes_append]).
    fields. took_fields.
  - known_bytes ltac:(apply OpEventBase_writes). took_fields.
  - unfold bytes_of, UnknownEvent.encode, assert_false. took_fields.
Qed.

Lemma client_DecodeVisitor_Ok (version : Z) (cm0 cm : ClientMeta)
    (bl : bufferlist) (off off' : nat) :
  ClientMetaVisitors.DecodeVisitor version cm0 bl off = Ok (cm, off') ->
  blank_client cm = blank_client cm0 /\ valid_ClientMeta cm /\
  took bl off off' (bytes_of (ClientMetaVisitors.encode_payload cm)).
Proof.
  intros H.
  destruct cm0 as [m|m|m|m];
    cbn [ClientMetaVisitors.DecodeVisitor] in H;
    unfold ImageClientMeta.decode, MirrorPeerClientMeta.decode,
      CliClientMeta.decode, UnknownClientMeta.decode in H;
    decode_inv;
    (split; [reflexivity|]);
    (split; [cbn [valid_ClientMeta]; fields; auto|]);
    cbn [ClientMetaVisitors.encode_payload].
  - known_bytes ltac:(apply writes_append). fields. took_fields.
  - known_bytes ltac:(apply writes_seq; [apply writes_string|];
                      apply writes_seq; [apply writes_append|];
                      apply writes_string).
    fields. took_fields.
  - known_bytes ltac:(apply writes_skip). took_fields.
  - unfold bytes_of, UnknownClientMeta.encode, assert_false. took_fields.
Qed.

Lemma TagData_decode_Ok (d0 d : TagData.t) (bl : bufferlist) (off off' : nat) :
  TagData.decode d0 bl off = Ok (d, off') ->
  valid_TagData d /\ took bl off off' (bytes_of (TagData.encode d)).
Proof.
  unfold TagData.decode. intros H. decode_inv.
  split; [unfold valid_TagData; fields; auto|].
  rewrite (writes_bytes_of _ _ (TagData_writes _)). fields. took_fields.
Qed.

Lemma took_bound_nonempty (bl : bufferlist) (off off' : nat) (bs : list byte) :
  took bl off off' bs -> (0 < length bs)%nat -> (off' <= length bl)%nat.
Proof.
  intros [H E] Hpos. apply (f_equal (@length byte)) in E.
  rewrite length_app, !length_skipn in E. lia.
Qed.

Lemma took_slice (bl : bufferlist) (off off' : nat) :
  (off <= off' <= length bl)%nat ->
  took bl off off' (firstn (off' - off) (skipn off bl)).
Proof.
  intros [H1 H2].
  assert (Hl : length (firstn (off' - off) (skipn off bl)) = (off' - off)%nat).
  { rewrite length_firstn, length_skipn. lia. }
  split; [lia|].
  rewrite <- (firstn_skipn (off' - off) (skipn off bl)) at 1.
  rewrite skipn_skipn. now replace (off' - off + off)%nat with off' by lia.
Qed.

Lemma DECODE_START_Ok (v : Z) (bl : bufferlist) (off off' : nat)
    (sv : Z) (struct_end : nat) :
  DECODE_START v bl off = Ok ((sv, struct_end), off') ->
  exists cv len,
    is_u8 sv /\ is_u8 cv /\ cv <= v /\ is_u32 len /\
    took bl off off' (header sv cv len) /\
    off' = (off + 6)%nat /\
    struct_end = (off' + Z.to_nat len)%nat /\
    (struct_end <= length bl)%nat.
Proof.
  unfold DECODE_START. intros H. decode_inv.
  destruct (Z.ltb_spec v a0) as [Hlt|Hge]; [discriminate H|].
  decode_inv. unfold get_remaining in Hd.
  injection Hd as <- <-.
  destruct (Z.ltb_spec (Z.of_nat (length bl - mid1)) a1) as [Hlt|Hrem];
    [discriminate H|].
  decode_inv. unfold get_off in Hd. injection Hd as <- <-.
  injection H as -> ->.
  assert (Ht : took bl off mid1 (header a a0 a1)).
  { unfold header. took_fields. }
  assert (Hm : mid1 = (off + 6)%nat) by (destruct Ht as [Ht _]; exact Ht).
  exists a0, a1.
  split; [assumption|]. split; [assumption|]. split; [lia|].
  split; [assumption|]. split; [exact Ht|]. split; [exact Hm|].
  split; [reflexivity|].
  pose proof (took_bound_nonempty _ _ _ _ Ht ltac:(cbn; lia)) as Hb.
  unfold is_u32 in *. lia.
Qed.

Lemma DECODE_FINISH_Ok (struct_end : nat) (bl : bufferlist) (off off' : nat)
    (u : unit) :
  DECODE_FINISH struct_end bl off = Ok (u, off') ->
  (off <= struct_end)%nat /\ off' = struct_end.
Proof.
  unfold DECODE_FINISH, bind, get_off, throw, advance, ret.
  destruct (Nat.ltb_spec struct_end off) as [Hlt|Hge]; [discriminate|].
  destruct (Nat.ltb_spec off struct_end) as [Hlt|Hge'].
  - destruct (off + (struct_end - off) <=? length bl)%nat; [|discriminate].
    intros H. injection H as _ <-. lia.
  - intros H. injection H as _ <-. lia.
Qed.

(** A successful decode of an envelope: the buffer holds a header
    that the reader accepts, the declared bytes are in the buffer, the
    body ran right behind the header and stopped within the declared
    bytes, and the cursor is at their end. *)
Lemma enveloped_Ok {A} (v : Z) (body : Z -> decoder A)
    (bl : bufferlist) (off off' : nat) (x : A) :
  enveloped v body bl off = Ok (x, off') ->
  exists sv cv len mid,
    is_u8 sv /\ is_u8 cv /\ cv <= v /\ is_u32 len /\
    took bl off (off + 6) (header sv cv len) /\
    off' = (off + 6 + Z.to_nat len)%nat /\ (off' <= length bl)%nat /\
    body sv bl (off + 6)%nat = Ok (x, mid) /\ (mid <= off')%nat.
Proof.
  unfold enveloped. intros H. decode_inv.
  destruct a as [sv struct_end]. cbn [fst snd] in *.
  apply DECODE_START_Ok in Hd.
  destruct Hd as (cv & len & Hsv & Hcv & Hle & Hlen & Ht & -> & -> & Hb).
  destruct a1. apply DECODE_FINISH_Ok in Hd1. destruct Hd1 as [Hm ->].
  exists sv, cv, len, mid0.
  split; [assumption|]. split; [assumption|]. split; [assumption|].
  split; [assumption|]. split; [assumption|]. split; [lia|].
  split; [assumption|]. split; [assumption | lia].
Qed.

Ltac switch_split :=
  repeat match goal with
         | |- context [?a =? ?b] => destruct (Z.eqb_spec a b)
         | H : context [?a =? ?b] |- _ => destruct (Z.eqb_spec a b)
         end.

Lemma blank_select_payload {K : Types_h} (d : Z) :
  blank (EventEntry.select_payload d) = EventEntry.select_payload d.
Proof. unfold EventEntry.select_payload. switch_split; reflexivity. Qed.

Lemma blank_client_select_payload {K : Types_h} (d : Z) :
  blank_client (ClientData.select_payload d) = ClientData.select_payload d.
Proof. unfold ClientData.select_payload. switch_split; reflexivity. Qed.

(** The switch selects an alternative only for its own label. *)
Lemma select_payload_tag {K : Types_h} (d : Z) (ev : Event) :
  EventEntry.select_payload d = blank ev -> is_placeholder ev = false ->
  d = EventVisitors.GetTypeVisitor ev.
Proof.
  unfold EventEntry.select_payload. intros H Hp.
  switch_split; destruct ev; try discriminate H; try discriminate Hp;
    cbn [EventVisitors.GetTypeVisitor]; assumption.
Qed.

Lemma select_payload_placeholder {K : Types_h} (d : Z) (ev : Event) :
  EventEntry.select_payload d = blank ev -> is_placeholder ev = true ->
  ~ In d event_catalog.
Proof.
  unfold EventEntry.select_payload. intros H Hp Hin.
  destruct ev; try discriminate Hp.
  switch_split; try discriminate H.
  unfold event_catalog in Hin. cbn [In] in Hin.
  repeat (destruct Hin as [Hin|Hin]; [congruence|]). exact Hin.
Qed.

Lemma client_select_payload_tag {K : Types_h} (d : Z) (cm : ClientMeta) :
  ClientData.select_payload d = blank_client cm ->
  is_client_placeholder cm = false ->
  d = ClientMetaVisitors.GetTypeVisitor cm.
Proof.
  unfold ClientData.select_payload. intros H Hp.
  switch_split; destruct cm; try discriminate H; try discriminate Hp;
    cbn [ClientMetaVisitors.GetTypeVisitor]; assumption.
Qed.

Lemma client_select_payload_placeholder {K : Types_h} (d : Z) (cm : ClientMeta) :
  ClientData.select_payload d = blank_client cm ->
  is_client_placeholder cm = true ->
  ~ In d client_meta_catalog.
Proof.
  unfold ClientData.select_payload. intros H Hp Hin.
  destruct cm; try discriminate Hp.
  switch_split; try discriminate H.
  unfold client_meta_catalog in Hin. cbn [In] in Hin.
  repeat (destruct Hin as [Hin|Hin]; [congruence|]). exact Hin.
Qed.

(** The content of an envelope, once the body has stopped at [mid]
    having consumed [front]: the front and the bytes that are skipped. *)
Lemma took_envelope (bl : bufferlist) (off mid off' : nat) (sv cv len : Z)
    (front : list byte) :
  0 <= len ->
  took bl off (off + 6) (header sv cv len) ->
  took bl (off + 6) mid front ->
  off' = (off + 6 + Z.to_nat len)%nat ->
  (mid <= off' <= length bl)%nat ->
  exists trailing, took bl off off' (envelope sv cv (front ++ trailing)).
Proof.
  intros Hlen Hh Hf -> Hm.
  exists (firstn (off + 6 + Z.to_nat len - mid) (skipn mid bl)).
  pose proof (took_slice bl mid _ Hm) as Ht.
  pose proof (took_app _ _ _ _ _ _ Hf Ht) as Hc.
  assert (E : Z.of_nat (length (front
               ++ firstn (off + 6 + Z.to_nat len - mid) (skipn mid bl))) = len).
  { destruct Hc as [Hc _]. lia. }
  unfold envelope. rewrite E. eapply took_app; eassumption.
Qed.

(** X6.  What [EventEntry::decode] accepts.  Whenever it succeeds, on
    any buffer and from any position, the entry it yields holds values
    of the C++ types, the cursor has moved at least ten bytes and is
    within the buffer, and the bytes it moved over are an envelope: a
    header whose minimum compatible version is at most 1 and whose
    length field counts the rest, a u32 discriminator for which the
    switch selects the alternative held (the type of the entry unless
    it is the placeholder, and then no case label), payload bytes of
    the entry, and trailing bytes. *)
Theorem event_entry_decode_sound (K : Types_h) (e0 e : EventEntry.t)
    (bl : bufferlist) (off off' : nat) :
  EventEntry.decode e0 bl off = Ok (e, off') ->
  valid_Event (EventEntry.event e) /\
  (off + 10 <= off' <= length bl)%nat /\
  exists sv cv d payload trailing,
    is_u8 sv /\ 0 <= cv <= 1 /\ is_u32 d /\
    EventEntry.select_payload d = blank (EventEntry.event e) /\
    (is_placeholder (EventEntry.event e) = false ->
     d = EventEntry.get_event_type e) /\
    (is_placeholder (EventEntry.event e) = true -> ~ In d event_catalog) /\
    accepted_payload (EventEntry.event e) payload /\
    took bl off off' (envelope sv cv (le_bytes 4 d ++ payload ++ trailing)).
Proof.
  intros H. rewrite EventEntry_decode_enveloped in H.
  apply enveloped_Ok in H.
  destruct H as (sv & cv & len & mid & Hsv & Hcv & Hle & Hlen & Hh & Ho & Hb
                 & Hbody & Hm).
  unfold event_body in Hbody.
  apply bind_Ok in Hbody. destruct Hbody as (d & o1 & Hd & Hbody).
  apply bind_Ok in Hbody. destruct Hbody as (ev & o2 & Hv & Hr).
  apply ret_Ok in Hr. destruct Hr as [-> ->].
  apply decode_u32_Ok in Hd. destruct Hd as [Hd32 Htd].
  apply DecodeVisitor_Ok in Hv.
  destruct Hv as (Hbl & Hval & payload & Hacc & Htp).
  cbn [EventEntry.event]. rewrite blank_select_payload in Hbl.
  assert (Hfront : took bl (off + 6) o2 (le_bytes 4 d ++ payload))
    by (eapply took_app; eassumption).
  destruct (took_envelope bl off o2 off' sv cv len _
              ltac:(unfold is_u32 in Hlen; lia) Hh Hfront Ho (conj Hm Hb))
    as [trailing Henv].
  split; [exact Hval|]. split.
  - split; [|exact Hb].
    destruct Hfront as [Hf _]. rewrite length_app, le_bytes_length in Hf. lia.
  - exists sv, cv, d, payload, trailing.
    split; [exact Hsv|]. split; [unfold is_u8 in Hcv; lia|].
    split; [assumption|]. split; [now symmetry|].
    split; [intros Hp; now apply select_payload_tag|].
    split; [intros Hp; now apply (select_payload_placeholder d ev)|].
    split; [exact Hacc|].
    now rewrite <- app_assoc in Henv.
Qed.

Lemma event_entry_decode_sound_witness :
  let bl := header 1 1 23 ++ le_bytes 4 0 ++ le_bytes 8 123 ++ le_bytes 8 345
              ++ ["x"; "y"; "z"]%byte in
  let e := EventEntry.make (AioDiscard (AioDiscardEvent.make 123 345)) in
  @EventEntry.decode journal_types
     (EventEntry.make (AioFlush AioFlushEvent.default)) bl 0%nat
    = Ok (e, 29%nat) /\
  valid_Event (EventEntry.event e) /\ (0 + 10 <= 29 <= length bl)%nat.
Proof.
  cbv zeta.
  assert (H : @EventEntry.decode journal_types
                (EventEntry.make (AioFlush AioFlushEvent.default))
                (header 1 1 23 ++ le_bytes 4 0 ++ le_bytes 8 123
                   ++ le_bytes 8 345 ++ ["x"; "y"; "z"]%byte) 0%nat
              = Ok (EventEntry.make (AioDiscard (AioDiscardEvent.make 123 345)),
                    29%nat)) by (vm_compute; reflexivity).
  split; [exact H|].
  destruct (event_entry_decode_sound journal_types _ _ _ _ _ H)
    as (Hv & Hb & _).
  split; [exact Hv | exact Hb].
Defined.

(** X7.  What [ClientData::decode] accepts.  Whenever it succeeds the
    record holds values of the C++ types, the cursor has moved at
    least ten bytes and is within the buffer, and the bytes it moved
    over are an envelope: a header whose minimum compatible version is
    at most 1 and whose length field counts the rest, a u32
    discriminator for which the switch selects the alternative held,
    exactly the bytes that the encode of that alternative writes, and
    trailing bytes. *)
Theorem client_data_decode_sound (K : Types_h) (c0 c : ClientData.t)
    (bl : bufferlist) (off off' : nat) :
  ClientData.decode c0 bl off = Ok (c, off') ->
  valid_ClientMeta (ClientData.client_meta c) /\
  (off + 10 <= off' <= length bl)%nat /\
  exists sv cv d trailing,
    is_u8 sv /\ 0 <= cv <= 1 /\ is_u32 d /\
    ClientData.select_payload d = blank_client (ClientData.client_meta c) /\
    (is_client_placeholder (ClientData.client_meta c) = false ->
     d = ClientData.get_client_meta_type c) /\
    (is_client_placeholder (ClientData.client_meta c) = true ->
     ~ In d client_meta_catalog) /\
    took bl off off'
      (envelope sv cv
         (le_bytes 4 d
            ++ bytes_of (ClientMetaVisitors.encode_payload (ClientData.client_meta c))
            ++ trailing)).
Proof.
  intros H. rewrite ClientData_decode_enveloped in H.
  apply enveloped_Ok in H.
  destruct H as (sv & cv & len & mid & Hsv & Hcv & Hle & Hlen & Hh & Ho & Hb
                 & Hbody & Hm).
  unfold client_body in Hbody.
  apply bind_Ok in Hbody. destruct Hbody as (d & o1 & Hd & Hbody).
  apply bind_Ok in Hbody. destruct Hbody as (cm & o2 & Hv & Hr).
  apply ret_Ok in Hr. destruct Hr as [-> ->].
  apply decode_u32_Ok in Hd. destruct Hd as [Hd32 Htd].
  apply client_DecodeVisitor_Ok in Hv. destruct Hv as (Hbl & Hval & Htp).
  cbn [ClientData.client_meta]. rewrite blank_client_select_payload in Hbl.
  assert (Hfront : took bl (off + 6) o2
                     (le_bytes 4 d
                        ++ bytes_of (ClientMetaVisitors.encode_payload cm)))
    by (eapply took_app; eassumption).
  destruct (took_envelope bl off o2 off' sv cv len _
              ltac:(unfold is_u32 in Hlen; lia) Hh Hfront Ho (conj Hm Hb))
    as [trailing Henv].
  split; [exact Hval|]. split.
  - split; [|exact Hb].
    destruct Hfront as [Hf _]. rewrite length_app, le_bytes_length in Hf. lia.
  - exists sv, cv, d, trailing.
    split; [exact Hsv|]. split; [unfold is_u8 in Hcv; lia|].
    split; [assumption|]. split; [now symmetry|].
    split; [intros Hp; now apply client_select_payload_tag|].
    split; [intros Hp; now apply (client_select_payload_placeholder d cm)|].
    now rewrite <- app_assoc in Henv.
Qed.

Lemma client_data_decode_sound_witness :
  let bl := header 7 0 14 ++ le_bytes 4 0 ++ le_bytes 8 123 ++ ["x"; "y"]%byte in
  let c := ClientData.make (ImageClient (ImageClientMeta.make 123)) in
  @ClientData.decode journal_types
     (ClientData.make (CliClient CliClientMeta.default)) bl 0%nat
    = Ok (c, 20%nat) /\
  valid_ClientMeta (ClientData.client_meta c) /\ (0 + 10 <= 20 <= length bl)%nat.
Proof.
  cbv zeta.
  assert (H : @ClientData.decode journal_types
                (ClientData.make (CliClient CliClientMeta.default))
                (header 7 0 14 ++ le_bytes 4 0 ++ le_bytes 8 123
                   ++ ["x"; "y"]%byte) 0%nat
              = Ok (ClientData.make (ImageClient (ImageClientMeta.make 123)),
                    20%nat)) by (vm_compute; reflexivity).
  split; [exact H|].
  destruct (client_data_decode_sound journal_types _ _ _ _ _ H)
    as (Hv & Hb & _).
  split; [exact Hv | exact Hb].
Defined.

Lemma encode_string_length (s : string) :
  length (bytes_of (encode_string s)) = (4 + length (list_byte_of_string s))%nat.
Proof.
  unfold encode_string. rewrite (writes_bytes_of _ _ (writes_bufferlist _)).
  now rewrite length_app, le_bytes_length.
Qed.

Lemma TagData_encode_length (d : TagData.t) :
  length (bytes_of (TagData.encode d))
  = (32 + length (list_byte_of_string (TagData.cluster_id d))
        + length (list_byte_of_string (TagData.image_id d)))%nat.
Proof.
  rewrite (writes_bytes_of _ _ (TagData_writes d)).
  rewrite !length_app, !le_bytes_length, !encode_string_length. lia.
Qed.

(** X8.  What [TagData::decode] accepts, and the way back.  Whenever
    it succeeds the record holds values of the C++ types, and the
    bytes the cursor moved over, at least 32 and all within the
    buffer, are exactly the bytes that [TagData::encode] writes for
    the record: encoding what was decoded reproduces the input. *)
Theorem tag_data_decode_sound (d0 d : TagData.t) (bl : bufferlist)
    (off off' : nat) :
  TagData.decode d0 bl off = Ok (d, off') ->
  valid_TagData d /\
  (off + 32 <= off' <= length bl)%nat /\
  exists bs, TagData.encode d [] = Done bs /\ took bl off off' bs.
Proof.
  intros H. apply TagData_decode_Ok in H. destruct H as [Hv Ht].
  pose proof (TagData_encode_length d) as Hl.
  split; [exact Hv|]. split.
  - split.
    + destruct Ht as [Ht _]. lia.
    + apply (took_bound_nonempty _ _ _ _ Ht). lia.
  - exists (bytes_of (TagData.encode d)). split; [|exact Ht].
    rewrite (writes_bytes_of _ _ (TagData_writes d)).
    apply (TagData_writes d []).
Qed.

Lemma tag_data_decode_sound_witness :
  let bl := ["000"; "000"]%byte ++ le_bytes 4 1 ++ ["a"]%byte ++ le_bytes 8 (-5)
              ++ le_bytes 4 0 ++ le_bytes 8 7 ++ le_bytes 8 9 ++ ["z"]%byte in
  let d := TagData.make "a" (-5) "" 7 9 in
  TagData.decode TagData.default bl 2%nat = Ok (d, 35%nat) /\
  valid_TagData d /\ (2 + 32 <= 35 <= length bl)%nat.
Proof.
  cbv zeta.
  assert (H : TagData.decode TagData.default
                (["000"; "000"]%byte ++ le_bytes 4 1 ++ ["a"]%byte
                   ++ le_bytes 8 (-5) ++ le_bytes 4 0 ++ le_bytes 8 7
                   ++ le_bytes 8 9 ++ ["z"]%byte) 2%nat
              = Ok (TagData.make "a" (-5) "" 7 9, 35%nat))
    by (vm_compute; reflexivity).
  split; [exact H|].
  destruct (tag_data_decode_sound _ _ _ _ _ H) as (Hv & Hb & _).
  split; [exact Hv | exact Hb].
Defined.

Lemma DecodeVisitor_reads_accepted {K : Types_h} (version : Z) (ev : Event)
    (bs : list byte) :
  valid_Event ev -> accepted_payload ev bs ->
  reads (EventVisitors.DecodeVisitor version (blank ev)) bs ev.
Proof.
  intros Hv Ha.
  destruct ev as [e|e|e|e|e|e|e|e|e|e|e|e|e|e];
    try (cbn [accepted_payload] in Ha; subst bs;
         now apply DecodeVisitor_reads).
  cbn [accepted_payload] in Ha. destruct Ha as (tid & Htid & ->).
  destruct Hv as [Hb Hr]. destruct e as [[t] r].
  cbn [blank EventVisitors.DecodeVisitor].
  apply (reads_bind_ret _ OpFinish).
  apply OpFinishEvent_reads_any; assumption.
Qed.

(** X9.  What [EventEntry::decode] accepts, the other way round.  For
    every numbering that C++ accepts: an envelope with any struct
    version byte, a minimum compatible version of 0 or 1, a length
    field that counts the rest, the type of an alternative that is no
    placeholder, payload bytes of a value of that alternative, and any
    trailing bytes, is decoded to that value wherever it stands in a
    buffer, and the cursor ends behind the trailing bytes. *)
Theorem event_entry_decode_complete (K : Types_h) (HK : Types_h_ok K)
    (e0 : EventEntry.t) (ev : Event) (sv cv : Z) (payload trailing : list byte) :
  is_u8 sv -> 0 <= cv <= 1 ->
  is_placeholder ev = false -> valid_Event ev -> accepted_payload ev payload ->
  fits_u32 (le_bytes 4 (EventVisitors.GetTypeVisitor ev) ++ payload ++ trailing) ->
  reads (EventEntry.decode e0)
        (envelope sv cv
           (le_bytes 4 (EventVisitors.GetTypeVisitor ev) ++ payload ++ trailing))
        (EventEntry.make ev).
Proof.
  intros Hsv Hcv Hp Hv Ha Hfit.
  rewrite (app_assoc (le_bytes 4 (EventVisitors.GetTypeVisitor ev))) in *.
  intros pre post. rewrite EventEntry_decode_enveloped.
  apply enveloped_reads; try assumption; try (unfold is_u8; lia).
  unfold event_body.
  eapply reads_bind; [apply reads_u32, (GetTypeVisitor_u32 HK)|].
  cbv beta. rewrite (select_payload_known HK) by exact Hp.
  apply (reads_bind_ret _ EventEntry.make).
  now apply DecodeVisitor_reads_accepted.
Qed.

(** An [OpFinishEvent] whose two operation ids differ, with struct
    version 9, minimum compatible version 0 and two trailing bytes. *)
Lemma event_entry_decode_complete_witness :
  let payload := le_bytes 8 77 ++ le_bytes 8 123 ++ le_bytes 4 (-1) in
  @EventEntry.decode journal_types
     (EventEntry.make (AioFlush AioFlushEvent.default))
     (envelope 9 0 (le_bytes 4 3 ++ payload ++ ["x"; "y"]%byte)) 0%nat
  = Ok (EventEntry.make (OpFinish (OpFinishEvent.make (OpEventBase.make 123) (-1))),
        32%nat).
Proof.
  cbv zeta.
  assert (H8 : is_u8 9) by (unfold is_u8; lia).
  assert (Hc : 0 <= 0 <= 1) by lia.
  assert (Hv : valid_Event
                 (OpFinish (OpFinishEvent.make (OpEventBase.make 123) (-1))))
    by (cbn; unfold valid_OpEventBase, is_u64, is_i32; cbn; lia).
  assert (Ha : accepted_payload
                 (OpFinish (OpFinishEvent.make (OpEventBase.make 123) (-1)))
                 (le_bytes 8 77 ++ le_bytes 8 123 ++ le_bytes 4 (-1))).
  { exists 77. split; [unfold is_u64; lia | reflexivity]. }
  assert (Hf : fits_u32
                 (le_bytes 4 3 ++ (le_bytes 8 77 ++ le_bytes 8 123 ++ le_bytes 4 (-1))
                    ++ ["x"; "y"]%byte)) by (vm_compute; reflexivity).
  exact (reads_whole _ _ _
           (event_entry_decode_complete journal_types journal_types_ok
              (EventEntry.make (AioFlush AioFlushEvent.default))
              (OpFinish (OpFinishEvent.make (OpEventBase.make 123) (-1)))
              9 0 _ _ H8 Hc eq_refl Hv Ha Hf)).
Defined.

Lemma reads_front {A} (d : decoder A) (bs rest : list byte) (a : A) :
  reads d bs a -> d (bs ++ rest) 0%nat = Ok (a, length bs).
Proof. intros H. exact (H [] rest). Qed.

Lemma reads_unique_front {A} (d : decoder A) (b1 b2 r1 r2 : list byte)
    (a1 a2 : A) :
  reads d b1 a1 -> reads d b2 a2 -> b1 ++ r1 = b2 ++ r2 ->
  a1 = a2 /\ b1 = b2.
Proof.
  intros H1 H2 E.
  pose proof (reads_front d b1 r1 a1 H1) as F1.
  pose proof (reads_front d b2 r2 a2 H2) as F2.
  rewrite E, F2 in F1. injection F1 as <- Hl.
  split; [reflexivity|].
  apply (f_equal (firstn (length b1))) in E.
  rewrite firstn_app, firstn_all, Nat.sub_diag, firstn_O, app_nil_r in E.
  rewrite <- Hl in E.
  rewrite firstn_app, firstn_all, Nat.sub_diag, firstn_O, app_nil_r in E.
  exact E.
Qed.

(** X10.  The encodings are prefix-free, hence injective.  For every
    numbering that C++ accepts: if the bytes written for one value,
    followed by anything, are the bytes written for another value,
    followed by anything, then the two values are equal and so are
    their encodings.  This holds for event entries and client records
    that hold no placeholder, and for tag records, whose members are
    values of their C++ types and whose content fits the u32 length. *)
Theorem encodings_prefix_free (K : Types_h) (HK : Types_h_ok K)
    (r1 r2 : list byte) :
  (forall e1 e2 b1 b2,
     is_placeholder (EventEntry.event e1) = false ->
     is_placeholder (EventEntry.event e2) = false ->
     valid_Event (EventEntry.event e1) -> valid_Event (EventEntry.event e2) ->
     fits_u32 (event_content (EventEntry.event e1)) ->
     fits_u32 (event_content (EventEntry.event e2)) ->
     EventEntry.encode e1 [] = Done b1 -> EventEntry.encode e2 [] = Done b2 ->
     b1 ++ r1 = b2 ++ r2 -> e1 = e2 /\ b1 = b2) /\
  (forall c1 c2 b1 b2,
     is_client_placeholder (ClientData.client_meta c1) = false ->
     is_client_placeholder (ClientData.client_meta c2) = false ->
     valid_ClientMeta (ClientData.client_meta c1) ->
     valid_ClientMeta (ClientData.client_meta c2) ->
     fits_u32 (client_content (ClientData.client_meta c1)) ->
     fits_u32 (client_content (ClientData.client_meta c2)) ->
     ClientData.encode c1 [] = Done b1 -> ClientData.encode c2 [] = Done b2 ->
     b1 ++ r1 = b2 ++ r2 -> c1 = c2 /\ b1 = b2) /\
  (forall d1 d2 b1 b2,
     valid_TagData d1 -> valid_TagData d2 ->
     TagData.encode d1 [] = Done b1 -> TagData.encode d2 [] = Done b2 ->
     b1 ++ r1 = b2 ++ r2 -> d1 = d2 /\ b1 = b2).
Proof.
  split; [|split].
  - intros e1 e2 b1 b2 Hp1 Hp2 Hv1 Hv2 Hf1 Hf2 E1 E2 E.
    pose proof (EventEntry_round_trip HK e1 e1 Hp1 Hv1 Hf1) as R1.
    pose proof (EventEntry_round_trip HK e1 e2 Hp2 Hv2 Hf2) as R2.
    unfold bytes_of in R1, R2. rewrite E1 in R1. rewrite E2 in R2.
    exact (reads_unique_front _ _ _ _ _ _ _ R1 R2 E).
  - intros c1 c2 b1 b2 Hp1 Hp2 Hv1 Hv2 Hf1 Hf2 E1 E2 E.
    pose proof (ClientData_round_trip HK c1 c1 Hp1 Hv1 Hf1) as R1.
    pose proof (ClientData_round_trip HK c1 c2 Hp2 Hv2 Hf2) as R2.
    unfold bytes_of in R1, R2. rewrite E1 in R1. rewrite E2 in R2.
    exact (reads_unique_front _ _ _ _ _ _ _ R1 R2 E).
  - intros d1 d2 b1 b2 Hv1 Hv2 E1 E2 E.
    pose proof (TagData_reads d1 d1 Hv1) as R1.
    pose proof (TagData_reads d1 d2 Hv2) as R2.
    unfold bytes_of in R1, R2. rewrite E1 in R1. rewrite E2 in R2.
    exact (reads_unique_front _ _ _ _ _ _ _ R1 R2 E).
Qed.

Lemma encodings_prefix_free_witness :
  let e1 := EventEntry.make (Flatten (OpEventBase.make 123)) in
  let e2 := EventEntry.make (Flatten (OpEventBase.make (100 + 23))) in
  let b := envelope 1 1 (le_bytes 4 12 ++ le_bytes 8 123) in
  let d := TagData.make "cluster_id" 123 "image_id" 0 0 in
  let t := le_bytes 4 10 ++ list_byte_of_string "cluster_id"
             ++ le_bytes 8 123
             ++ le_bytes 4 8 ++ list_byte_of_string "image_id"
             ++ le_bytes 8 0 ++ le_bytes 8 0 in
  Types_h_ok journal_types /\
  @EventEntry.encode journal_types e1 [] = Done b /\
  @EventEntry.encode journal_types e2 [] = Done b /\
  b ++ ["x"]%byte = b ++ ["x"]%byte /\
  (e1 = e2 /\ b = b) /\
  TagData.encode d [] = Done t /\
  t ++ ["x"]%byte = t ++ ["x"]%byte /\
  (d = d /\ t = t).
Proof.
  cbv zeta.
  destruct (encodings_prefix_free journal_types journal_types_ok
              ["x"]%byte ["x"]%byte) as (He & _ & Ht).
  assert (E1 : @EventEntry.encode journal_types
                 (EventEntry.make (Flatten (OpEventBase.make 123))) []
               = Done (envelope 1 1 (le_bytes 4 12 ++ le_bytes 8 123)))
    by (vm_compute; reflexivity).
  assert (E2 : @EventEntry.encode journal_types
                 (EventEntry.make (Flatten (OpEventBase.make (100 + 23)))) []
               = Done (envelope 1 1 (le_bytes 4 12 ++ le_bytes 8 123)))
    by (vm_compute; reflexivity).
  assert (T : TagData.encode (TagData.make "cluster_id" 123 "image_id" 0 0) []
              = Done (le_bytes 4 10 ++ list_byte_of_string "cluster_id"
                        ++ le_bytes 8 123
                        ++ le_bytes 4 8 ++ list_byte_of_string "image_id"
                        ++ le_bytes 8 0 ++ le_bytes 8 0))
    by (vm_compute; reflexivity).
  split; [exact journal_types_ok|].
  split; [exact E1|]. split; [exact E2|]. split; [reflexivity|].
  split.
  - apply (He _ _ _ _); try reflexivity; try exact E1; try exact E2;
      first [literal_value | literal_fits].
  - split; [exact T|]. split; [reflexivity|].
    apply (Ht _ _ _ _); try reflexivity; try exact T;
      unfold valid_TagData; literal_value.
Defined.

(** X11.  Entries appended one after the other are read back one
    after the other.  For every numbering that C++ accepts and any two
    entries that hold no placeholder, of valid members and fitting
    content: encoding the first and then the second onto a buffer
    leaves what the buffer held in place, decoding from the old end of
    the buffer yields the first entry and stops where the second
    starts, and decoding from there yields the second and stops at the
    end. *)
Theorem entries_appended_in_sequence (K : Types_h) (HK : Types_h_ok K)
    (e0 e1 e2 : EventEntry.t) (bl : bufferlist) :
  is_placeholder (EventEntry.event e1) = false ->
  is_placeholder (EventEntry.event e2) = false ->
  valid_Event (EventEntry.event e1) -> valid_Event (EventEntry.event e2) ->
  fits_u32 (event_content (EventEntry.event e1)) ->
  fits_u32 (event_content (EventEntry.event e2)) ->
  exists b1 b2,
    EventEntry.encode e1 bl = Done (bl ++ b1) /\
    EventEntry.encode e2 (bl ++ b1) = Done (bl ++ b1 ++ b2) /\
    EventEntry.decode e0 (bl ++ b1 ++ b2) (length bl)
      = Ok (e1, length (bl ++ b1)) /\
    EventEntry.decode e0 (bl ++ b1 ++ b2) (length (bl ++ b1))
      = Ok (e2, length (bl ++ b1 ++ b2)).
Proof.
  intros Hp1 Hp2 Hv1 Hv2 Hf1 Hf2.
  pose proof (EventEntry_encode_writes e1 Hp1) as W1.
  pose proof (EventEntry_encode_writes e2 Hp2) as W2.
  pose proof (EventEntry_round_trip HK e0 e1 Hp1 Hv1 Hf1) as R1.
  pose proof (EventEntry_round_trip HK e0 e2 Hp2 Hv2 Hf2) as R2.
  rewrite (writes_bytes_of _ _ W1) in R1.
  rewrite (writes_bytes_of _ _ W2) in R2.
  exists (envelope 1 1 (event_content (EventEntry.event e1))),
         (envelope 1 1 (event_content (EventEntry.event e2))).
  split; [apply W1|]. split; [rewrite W2; now rewrite <- app_assoc|].
  split.
  - rewrite (R1 bl _). now rewrite length_app.
  - specialize (R2 (bl ++ envelope 1 1 (event_content (EventEntry.event e1))) []).
    rewrite app_nil_r, <- app_assoc in R2. rewrite R2.
    now rewrite !length_app, Nat.add_assoc.
Qed.

Lemma entries_appended_in_sequence_witness :
  let e1 := EventEntry.make (Resize (ResizeEvent.make (OpEventBase.make 901) 1234)) in
  let e2 := EventEntry.make (Flatten (OpEventBase.make 123)) in
  exists b1 b2,
    @EventEntry.encode journal_types e1 ["j"]%byte = Done (["j"]%byte ++ b1) /\
    @EventEntry.encode journal_types e2 (["j"]%byte ++ b1)
      = Done (["j"]%byte ++ b1 ++ b2) /\
    @EventEntry.decode journal_types e1 (["j"]%byte ++ b1 ++ b2) 1%nat
      = Ok (e1, length (["j"]%byte ++ b1)) /\
    @EventEntry.decode journal_types e1 (["j"]%byte ++ b1 ++ b2)
       (length (["j"]%byte ++ b1))
      = Ok (e2, length (["j"]%byte ++ b1 ++ b2)).
Proof.
  cbv zeta.
  apply (entries_appended_in_sequence journal_types journal_types_ok);
    first [reflexivity | literal_value | literal_fits].
Defined.

(* ================================================================== *)
(** ** Lemmas: what the decoders throw *)

Lemma throws_only_ret {A} (P : buffer_error -> Prop) (a : A) :
  throws_only P (ret a).
Proof. intros bl off e H. discriminate H. Qed.

Lemma throws_only_throw {A} (P : buffer_error -> Prop) (e : buffer_error) :
  P e -> throws_only P (@throw A e).
Proof. intros HP bl off e' H. injection H as <-. exact HP. Qed.

Lemma throws_only_bind {A B} (P : buffer_error -> Prop)
    (d : decoder A) (k : A -> decoder B) :
  throws_only P d -> (forall a, throws_only P (k a)) ->
  throws_only P (bind d k).
Proof.
  intros Hd Hk bl off e H. unfold bind in H.
  destruct (d bl off) as [[a o]|e'] eqn:E.
  - exact (Hk a bl o e H).
  - injection H as <-. exact (Hd bl off e' E).
Qed.

Lemma throws_only_copy (P : buffer_error -> Prop) (n : nat) :
  P end_of_buffer -> throws_only P (copy n).
Proof.
  intros HP bl off e H. unfold copy in H.
  destruct (off + n <=? length bl)%nat; [discriminate H|].
  injection H as <-. exact HP.
Qed.

Lemma throws_only_advance (P : buffer_error -> Prop) (n : nat) :
  P end_of_buffer -> throws_only P (advance n).
Proof.
  intros HP bl off e H. unfold advance in H.
  destruct (off + n <=? length bl)%nat; [discriminate H|].
  injection H as <-. exact HP.
Qed.

Lemma throws_only_get_off (P : buffer_error -> Prop) : throws_only P get_off.
Proof. intros bl off e H. discriminate H. Qed.

Lemma throws_only_weaken {A} (P Q : buffer_error -> Prop) (d : decoder A) :
  (forall e, P e -> Q e) -> throws_only P d -> throws_only Q d.
Proof. intros HPQ Hd bl off e H. apply HPQ. exact (Hd bl off e H). Qed.

(** Takes a decoder written with [bind] apart; the decoders of the
    fields throw [end_of_buffer] only. *)
Ltac throws_eob :=
  repeat first
    [ progress intros
    | apply throws_only_bind
    | apply throws_only_ret
    | apply throws_only_copy; reflexivity
    | apply throws_only_get_off ].

Lemma DecodeVisitor_throws (v : Z) (ev : Event) :
  throws_only (eq end_of_buffer) (EventVisitors.DecodeVisitor v ev).
Proof.
  destruct ev; cbn [EventVisitors.DecodeVisitor];
    unfold AioDiscardEvent.decode, AioWriteEvent.decode, AioFlushEvent.decode,
      OpFinishEvent.decode, SnapRenameEvent.decode, SnapEventBase.decode,
      RenameEvent.decode, ResizeEvent.decode, OpEventBase.decode,
      UnknownEvent.decode;
    unfold_decoders; throws_eob.
Qed.

Lemma client_DecodeVisitor_throws (v : Z) (cm : ClientMeta) :
  throws_only (eq end_of_buffer) (ClientMetaVisitors.DecodeVisitor v cm).
Proof.
  destruct cm; cbn [ClientMetaVisitors.DecodeVisitor];
    unfold ImageClientMeta.decode, MirrorPeerClientMeta.decode,
      CliClientMeta.decode, UnknownClientMeta.decode;
    unfold_decoders; throws_eob.
Qed.

Lemma TagData_decode_throws (d0 : TagData.t) :
  throws_only (eq end_of_buffer) (TagData.decode d0).
Proof. unfold TagData.decode. unfold_decoders. throws_eob. Qed.

Lemma envelope_error_eob : envelope_error end_of_buffer.
Proof. now left. Qed.

Lemma envelope_error_past : envelope_error malformed_input_past.
Proof. right. now left. Qed.

Lemma enveloped_throws {A} (body : Z -> decoder A) :
  (forall sv, throws_only (eq end_of_buffer) (body sv)) ->
  throws_only envelope_error (enveloped 1 body).
Proof.
  intros Hbody bl off e H.
  rewrite enveloped_after_struct_v in H. unfold bind at 1 in H.
  destruct (decode_u8 bl off) as [[sv o]|e1] eqn:E1.
  2:{ injection H as <-.
      assert (He : end_of_buffer = e1).
      { revert E1. unfold decode_u8. apply throws_only_bind; throws_eob. }
      subst e1. apply envelope_error_eob. }
  unfold after_struct_v, bind at 1 in H.
  destruct (decode_u8 bl o) as [[cv o1]|e1] eqn:E2.
  2:{ injection H as <-.
      assert (He : end_of_buffer = e1).
      { revert E2. unfold decode_u8. apply throws_only_bind; throws_eob. }
      subst e1. apply envelope_error_eob. }
  apply decode_u8_Ok in E2. destruct E2 as [Hcv _].
  destruct (Z.ltb_spec 1 cv) as [Hlt|Hge].
  { injection H as <-. right. right. exists cv. split; [|reflexivity].
    unfold is_u8 in Hcv. lia. }
  revert H.
  apply (throws_only_bind envelope_error).
  { apply (throws_only_weaken (eq end_of_buffer));
      [intros ? <-; apply envelope_error_eob|].
    unfold decode_u32. throws_eob. }
  intros len. apply throws_only_bind; [intros ? ? ? Hx; discriminate Hx|].
  intros rem. destruct (Z.of_nat rem <? len).
  { apply throws_only_throw, envelope_error_past. }
  apply throws_only_bind; [apply throws_only_get_off|].
  intros o2. apply throws_only_bind.
  { apply (throws_only_weaken (eq end_of_buffer));
      [intros ? <-; apply envelope_error_eob | apply Hbody]. }
  intros x. apply throws_only_bind; [|intros; apply throws_only_ret].
  unfold DECODE_FINISH. apply throws_only_bind; [apply throws_only_get_off|].
  intros o3. destruct (o2 + Z.to_nat len <? o3)%nat.
  { apply throws_only_throw, envelope_error_past. }
  destruct (o3 <? o2 + Z.to_nat len)%nat.
  - apply throws_only_advance, envelope_error_eob.
  - apply throws_only_ret.
Qed.

Lemma event_body_throws `{Types_h} (sv : Z) :
  throws_only (eq end_of_buffer) (event_body sv).
Proof.
  unfold event_body. apply throws_only_bind.
  - unfold decode_u32. throws_eob.
  - intros d. apply throws_only_bind; [apply DecodeVisitor_throws|].
    intros ev. apply throws_only_ret.
Qed.

Lemma client_body_throws `{Types_h} (sv : Z) :
  throws_only (eq end_of_buffer) (client_body sv).
Proof.
  unfold client_body. apply throws_only_bind.
  - unfold decode_u32. throws_eob.
  - intros d. apply throws_only_bind; [apply client_DecodeVisitor_throws|].
    intros cm. apply throws_only_ret.
Qed.

(** X12.  The errors of the three decode functions.  Whatever the
    input, [EventEntry::decode] and [ClientData::decode] end with a
    value or with one of three errors: the buffer ran out, the
    declared length does not match (the declared bytes are not in the
    buffer, or the payload decoder ran past them), or the header's
    minimum compatible version is above 1.  [TagData::decode], which
    has no envelope, ends with a value or with the buffer running
    out; it never reports a version or a length error. *)
Theorem decode_errors (K : Types_h) (bl : bufferlist) (off : nat)
    (err : buffer_error) :
  (forall e0, EventEntry.decode e0 bl off = Throw err -> envelope_error err) /\
  (forall c0, ClientData.decode c0 bl off = Throw err -> envelope_error err) /\
  (forall d0, TagData.decode d0 bl off = Throw err -> err = end_of_buffer).
Proof.
  split; [|split].
  - intros e0 H. rewrite EventEntry_decode_enveloped in H.
    exact (enveloped_throws event_body event_body_throws bl off err H).
  - intros c0 H. rewrite ClientData_decode_enveloped in H.
    exact (enveloped_throws client_body client_body_throws bl off err H).
  - intros d0 H. symmetry. exact (TagData_decode_throws d0 bl off err H).
Qed.

Lemma DECODE_START_short (v : Z) (pre rest : list byte) (sv cv len : Z) :
  is_u8 sv -> is_u8 cv -> cv <= v -> is_u32 len ->
  Z.of_nat (length rest) < len ->
  DECODE_START v (pre ++ header sv cv len ++ rest) (length pre)
  = Throw malformed_input_past.
Proof.
  intros Hsv Hcv Hle Hl Hshort. unfold DECODE_START, header.
  rewrite <- !app_assoc.
  rewrite (bind_reads _ _ _ _ (reads_u8 sv Hsv)).
  rewrite (bind_reads _ _ _ _ (reads_u8 cv Hcv)).
  destruct (Z.ltb_spec v cv) as [Hlt|_]; [lia|].
  rewrite (bind_reads _ _ _ _ (reads_u32 len Hl)).
  unfold bind, get_remaining, throw.
  destruct (Z.ltb_spec
              (Z.of_nat (length ((((pre ++ le_bytes 1 sv) ++ le_bytes 1 cv)
                                    ++ le_bytes 4 len) ++ rest)
                         - length (((pre ++ le_bytes 1 sv) ++ le_bytes 1 cv)
                                     ++ le_bytes 4 len))) len) as [_|Hge];
    [reflexivity|].
  rewrite !length_app, !le_bytes_length in Hge. lia.
Qed.

(** An envelope as the encoders write it, cut short. *)
Lemma enveloped_truncated {A} (body : Z -> decoder A)
    (content : list byte) (n : nat) :
  fits_u32 content -> (n < length (envelope 1 1 content))%nat ->
  enveloped 1 body (firstn n (envelope 1 1 content)) 0%nat
  = Throw (if (n <? 6)%nat then end_of_buffer else malformed_input_past).
Proof.
  intros Hfit Hn. unfold envelope in *.
  destruct (Nat.ltb_spec n 6) as [Hlt|Hge].
  - unfold enveloped, bind.
    do 6 (destruct n as [|n]; [vm_compute; reflexivity|]). lia.
  - rewrite firstn_app, header_length.
    rewrite (firstn_all2 (header 1 1 _)) by (rewrite header_length; lia).
    unfold enveloped, bind.
    assert (HS : DECODE_START 1
                   (header 1 1 (Z.of_nat (length content))
                      ++ firstn (n - 6) content) 0%nat
                 = Throw malformed_input_past).
    { apply (DECODE_START_short 1 [] (firstn (n - 6) content) 1 1
               (Z.of_nat (length content))); try (unfold is_u8; lia).
      - unfold is_u32, fits_u32 in *. lia.
      - rewrite length_app, header_length in Hn.
        rewrite length_firstn. lia. }
    rewrite HS. reflexivity.
Qed.

(** X13.  A truncated record is rejected.  Decoding any strict
    prefix of the bytes that encode wrote never yields a value: for an
    event entry or a client record that holds no placeholder it throws
    the end-of-buffer error when fewer than six bytes are left and the
    length error otherwise; for a tag record of valid members it
    throws the end-of-buffer error. *)
Theorem truncated_record_rejected (K : Types_h) (n : nat) (b : list byte) :
  (n < length b)%nat ->
  (forall e0 e,
     is_placeholder (EventEntry.event e) = false ->
     fits_u32 (event_content (EventEntry.event e)) ->
     EventEntry.encode e [] = Done b ->
     EventEntry.decode e0 (firstn n b) 0%nat
     = Throw (if (n <? 6)%nat then end_of_buffer else malformed_input_past)) /\
  (forall c0 c,
     is_client_placeholder (ClientData.client_meta c) = false ->
     fits_u32 (client_content (ClientData.client_meta c)) ->
     ClientData.encode c [] = Done b ->
     ClientData.decode c0 (firstn n b) 0%nat
     = Throw (if (n <? 6)%nat then end_of_buffer else malformed_input_past)) /\
  (forall d0 d,
     valid_TagData d -> TagData.encode d [] = Done b ->
     TagData.decode d0 (firstn n b) 0%nat = Throw end_of_buffer).
Proof.
  intros Hn. split; [|split].
  - intros e0 e Hp Hfit He.
    rewrite (EventEntry_encode_writes e Hp []) in He. injection He as <-.
    rewrite EventEntry_decode_enveloped. now apply enveloped_truncated.
  - intros c0 c Hp Hfit Hc.
    rewrite (ClientData_encode_writes c Hp []) in Hc. injection Hc as <-.
    rewrite ClientData_decode_enveloped. now apply enveloped_truncated.
  - intros d0 d Hv Hd.
    destruct (TagData.decode d0 (firstn n b) 0%nat) as [[d' o']|err] eqn:E.
    + exfalso. apply TagData_decode_Ok in E. destruct E as [Hv' Ht].
      pose proof (TagData_reads d0 d Hv) as R.
      pose proof (TagData_reads d0 d' Hv') as R'.
      unfold bytes_of in R at 1. rewrite Hd in R.
      destruct Ht as [Ho Hs]. cbn [skipn] in Hs.
      assert (E : b ++ [] = bytes_of (TagData.encode d')
                            ++ (skipn o' (firstn n b) ++ skipn n b)).
      { rewrite app_nil_r, app_assoc, <- Hs. symmetry. apply firstn_skipn. }
      destruct (reads_unique_front _ _ _ _ _ _ _ R R' E) as [_ Eb].
      assert (Hl : (o' <= length (firstn n b))%nat).
      { apply (f_equal (@length byte)) in Hs.
        rewrite length_app, length_skipn in Hs. lia. }
      rewrite length_firstn in Hl. rewrite Eb in Hn. lia.
    + f_equal. symmetry. exact (TagData_decode_throws d0 _ _ _ E).
Qed.

Lemma truncated_record_rejected_witness :
  let b := envelope 1 1 (le_bytes 4 12 ++ le_bytes 8 123) in
  @EventEntry.encode journal_types (EventEntry.make (Flatten (OpEventBase.make 123))) []
    = Done b /\
  @EventEntry.decode journal_types
     (EventEntry.make (AioFlush AioFlushEvent.default)) (firstn 17 b) 0%nat
    = Throw malformed_input_past.
Proof.
  cbv zeta.
  assert (He : @EventEntry.encode journal_types
                 (EventEntry.make (Flatten (OpEventBase.make 123))) []
               = Done (envelope 1 1 (le_bytes 4 12 ++ le_bytes 8 123)))
    by (vm_compute; reflexivity).
  split; [exact He|].
  assert (Hn : (17 < length (envelope 1 1 (le_bytes 4 12 ++ le_bytes 8 123)))%nat)
    by (cbn; lia).
  destruct (truncated_record_rejected journal_types 17 _ Hn) as [Hev _].
  apply (Hev _ (EventEntry.make (Flatten (OpEventBase.make 123))));
    [reflexivity | literal_fits | exact He].
Defined.

(* ------------------------------------------------------------------ *)
(** ** Lemmas: what dump leaves in the formatter *)

Ltac distinct_names :=
  repeat (constructor; [cbn [In]; intuition discriminate|]); constructor.

(** X14.  What dump leaves in the formatter.  Each of the three dump
    functions only appends: what it adds does not depend on what the
    formatter holds.  [EventEntry::dump] and [ClientData::dump] add the
    type first, under the key "event_type" and "client_meta_type", as
    the name [operator<<] prints for the variant held, placeholders
    included.  The keys added are pairwise different, with one
    exception: an [OpFinishEvent] is dumped with the key "op_tid"
    twice, both times with the same operation id. *)
Theorem dump_appends_keys (K : Types_h) :
  (forall e f, EventEntry.dump e f = f ++ EventEntry.dump e []) /\
  (forall e, exists out,
     EventEntry.dump e []
     = dump_string "event_type"
         (stringify_EventType (EventEntry.get_event_type e)) :: out /\
     ((forall x, EventEntry.event e <> OpFinish x) ->
      NoDup (map dumped_name (EventEntry.dump e []))) /\
     (forall x, EventEntry.event e = OpFinish x ->
      out = [dump_unsigned "op_tid" (OpFinishEvent.op_tid x);
             dump_unsigned "op_tid" (OpFinishEvent.op_tid x);
             dump_int "result" (OpFinishEvent.r x)])) /\
  (forall c f, ClientData.dump c f = f ++ ClientData.dump c []) /\
  (forall c, exists out,
     ClientData.dump c []
     = dump_string "client_meta_type"
         (stringify_ClientMetaType (ClientData.get_client_meta_type c)) :: out /\
     NoDup (map dumped_name (ClientData.dump c []))) /\
  (forall d f, TagData.dump d f = f ++ TagData.dump d []) /\
  (forall d, NoDup (map dumped_name (TagData.dump d []))).
Proof.
  repeat match goal with |- _ /\ _ => split end.
  - intros [ev] f. unfold EventEntry.dump, EventVisitors.DumpVisitor.
    cbn [EventEntry.event app].
    rewrite event_dump_payload_app,
      (event_dump_payload_app ev [dump_string _ _]), <- app_assoc.
    reflexivity.
  - intros [ev]. unfold EventEntry.dump, EventVisitors.DumpVisitor,
      EventEntry.get_event_type.
    cbn [EventEntry.event app]. rewrite event_dump_payload_app.
    exists (EventVisitors.dump_payload ev []).
    split; [reflexivity|]. split.
    + intros Hnot. destruct ev; try (exfalso; eapply Hnot; reflexivity);
        cbn; distinct_names.
    + intros x Hx. cbn [EventEntry.event] in Hx. subst ev. reflexivity.
  - intros [cm] f. unfold ClientData.dump, ClientMetaVisitors.DumpVisitor.
    cbn [ClientData.client_meta app].
    rewrite client_dump_payload_app,
      (client_dump_payload_app cm [dump_string _ _]), <- app_assoc.
    reflexivity.
  - intros [cm]. unfold ClientData.dump, ClientMetaVisitors.DumpVisitor,
      ClientData.get_client_meta_type.
    cbn [ClientData.client_meta app]. rewrite client_dump_payload_app.
    exists (ClientMetaVisitors.dump_payload cm []).
    split; [reflexivity|]. destruct cm; cbn; distinct_names.
  - intros d f. reflexivity.
  - intros d. cbn. distinct_names.
Qed.

(* ------------------------------------------------------------------ *)
(** ** The switches of decode and the types of the alternatives *)

(** X5.  The switches of the two decode functions and [GetTypeVisitor]
    agree.  Under every numbering that C++ accepts, the switch handed
    the type of a payload that is no placeholder constructs the
    default object of that payload's alternative.  The other way
    round, whenever the switch constructs something other than the
    placeholder, it was handed a case label, and that label is the
    type of what it constructed; it constructs the placeholder for
    the values that are no case label, and only for them. *)
Theorem switch_selects_own_type (K : Types_h) (HK : Types_h_ok K) :
  (forall ev, is_placeholder ev = false ->
     EventEntry.select_payload (EventVisitors.GetTypeVisitor ev) = blank ev) /\
  (forall d, is_placeholder (EventEntry.select_payload d) = false ->
     In d event_catalog /\
     EventVisitors.GetTypeVisitor (EventEntry.select_payload d) = d) /\
  (forall d, is_placeholder (EventEntry.select_payload d) = true <->
     ~ In d event_catalog) /\
  (forall cm, is_client_placeholder cm = false ->
     ClientData.select_payload (ClientMetaVisitors.GetTypeVisitor cm)
     = blank_client cm) /\
  (forall d, is_client_placeholder (ClientData.select_payload d) = false ->
     In d client_meta_catalog /\
     ClientMetaVisitors.GetTypeVisitor (ClientData.select_payload d) = d) /\
  (forall d, is_client_placeholder (ClientData.select_payload d) = true <->
     ~ In d client_meta_catalog).
Proof.
  assert (He : forall d, is_placeholder (EventEntry.select_payload d) = true <->
                         ~ In d event_catalog).
  { intros d. split.
    - apply select_payload_placeholder. symmetry. apply blank_select_payload.
    - intros Hd. now rewrite (select_payload_unknown d Hd). }
  assert (Hc : forall d,
             is_client_placeholder (ClientData.select_payload d) = true <->
             ~ In d client_meta_catalog).
  { intros d. split.
    - apply client_select_payload_placeholder. symmetry.
      apply blank_client_select_payload.
    - intros Hd. now rewrite (client_select_payload_unknown d Hd). }
  repeat match goal with |- _ /\ _ => split end.
  - exact (select_payload_known HK).
  - intros d Hp. split.
    + destruct (in_dec Z.eq_dec d event_catalog) as [Hin|Hout]; [exact Hin|].
      apply He in Hout. congruence.
    + symmetry. apply select_payload_tag; [|exact Hp].
      symmetry. apply blank_select_payload.
  - exact He.
  - exact (client_select_payload_known HK).
  - intros d Hp. split.
    + destruct (in_dec Z.eq_dec d client_meta_catalog) as [Hin|Hout];
        [exact Hin|].
      apply Hc in Hout. congruence.
    + symmetry. apply client_select_payload_tag; [|exact Hp].
      symmetry. apply blank_client_select_payload.
  - exact Hc.
Qed.

Lemma switch_selects_own_type_witness :
  Types_h_ok journal_types /\
  @EventEntry.select_payload journal_types 7
  = SnapProtect SnapEventBase.default /\
  @ClientData.select_payload journal_types 1
  = MirrorPeerClient MirrorPeerClientMeta.default.
Proof.
  split; [exact journal_types_ok|].
  destruct (switch_selects_own_type journal_types journal_types_ok)
    as (He & _ & _ & Hc & _).
  split.
  - exact (He (SnapProtect (EventEntry.snap_event 567 "snap")) eq_refl).
  - exact (Hc (MirrorPeerClient
                 (MirrorPeerClientMeta.make "cluster_id" 123 "image_id"))
              eq_refl).
Defined.
